(** * Scattering models of the batched ray tracer (materials.py)

    A shallow embedding of [reflect], [refract], [reflectance] and of the
    [scatter] methods of [Lambertian], [Metal] and [Dielectric].

    Conventions of the embedding.
    - Tensor entries are real numbers: the arithmetic of the source is read
      over [R], so rounding, infinities and NaN are outside the model.
      [sqrt] is the total square root of the Standard Library (0 on negative
      arguments, where torch yields NaN); the one place where the source can
      take the root of a negative number is [sin_theta] in
      [Dielectric.scatter], whose only use is the test [> 1.0], false for
      both 0 and NaN.
    - A tensor annotated ["N 3"] is a vector of [N] rows of three reals, one
      annotated ["N 1"] a vector of [N] reals, a boolean tensor of shape [N]
      a vector of [N] booleans.  The batch size is part of the type, as the
      shape annotations of the source require.
    - The random sources ([random_unit_vector], [t.rand]) are external: the
      tensors they return are arguments of the embedded methods. *)

From Stdlib Require Import Reals Lra Psatz.
From Stdlib Require Vector Fin.

Open Scope R_scope.

(** ** Rows: the last axis of an ["N 3"] tensor *)

Record vec3 : Type := mkV { vx : R; vy : R; vz : R }.

(** Elementwise operations of torch on one row. *)
Definition vadd (a b : vec3) : vec3 := mkV (vx a + vx b) (vy a + vy b) (vz a + vz b).
Definition vsub (a b : vec3) : vec3 := mkV (vx a - vx b) (vy a - vy b) (vz a - vz b).
Definition vmul (a b : vec3) : vec3 := mkV (vx a * vx b) (vy a * vy b) (vz a * vz b).
Definition vneg (a : vec3) : vec3 := mkV (- vx a) (- vy a) (- vz a).
Definition vpow2 (a : vec3) : vec3 := mkV (vx a ^ 2) (vy a ^ 2) (vz a ^ 2).

(** A one-column entry broadcast against a row: [s * v] and [v / s]. *)
Definition vscale (s : R) (a : vec3) : vec3 := mkV (s * vx a) (s * vy a) (s * vz a).
Definition vdivs (a : vec3) (s : R) : vec3 := mkV (vx a / s) (vy a / s) (vz a / s).

(** [.sum(dim=1)] on one row. *)
Definition vsum (a : vec3) : R := vx a + vy a + vz a.

(** [.norm(dim=1)] on one row (the 2-norm). *)
Definition norm (a : vec3) : R := sqrt (vsum (vmul a a)).

(** The per-row dot product, in the words of the specification. *)
Definition dot (a b : vec3) : R := vx a * vx b + vy a * vy b + vz a * vz b.

Definition vzero : vec3 := mkV 0 0 0.
Definition vones : vec3 := mkV 1 1 1.

(** ** Batches *)

Definition tensor (N : nat) : Type := Vector.t vec3 N.
Definition column (N : nat) : Type := Vector.t R N.
Definition mask (N : nat) : Type := Vector.t bool N.

(** A ray batch ["N 3 2"]: the last axis holds [origin, direction]. *)
Definition rays (N : nat) : Type := Vector.t (vec3 * vec3) N.

Definition row {A : Type} {N : nat} (v : Vector.t A N) (i : Fin.t N) : A :=
  Vector.nth v i.

Definition map3 {A B C D : Type} (f : A -> B -> C -> D) {N : nat}
    (a : Vector.t A N) (b : Vector.t B N) (c : Vector.t C N) : Vector.t D N :=
  Vector.map2 (fun (ab : A * B) (ci : C) => f (fst ab) (snd ab) ci)
    (Vector.map2 pair a b) c.

(** The batch of size one holding the row [a]. *)
Definition single {A : Type} (a : A) : Vector.t A 1 :=
  Vector.cons A a 0 (Vector.nil A).

(** [r_in[:, :, 1]]. *)
Definition directions {N : nat} (r : rays N) : tensor N := Vector.map snd r.

(** [t.stack([origin, direction], dim=-1)]. *)
Definition stack {N : nat} (o d : tensor N) : rays N := Vector.map2 pair o d.

(** [t.where(cond, a, b)], row by row. *)
Definition where_ {A : Type} {N : nat} (c : mask N) (a b : Vector.t A N) : Vector.t A N :=
  map3 (fun (ci : bool) (ai bi : A) => if ci then ai else bi) c a b.

(** [dst[m] = src[m]]: the rows selected by the mask are overwritten. *)
Definition masked_assign {N : nat} (dst : tensor N) (m : mask N) (src : tensor N) : tensor N :=
  map3 (fun (mi : bool) (di si : vec3) => if mi then si else di) m dst src.

(** Comparisons producing boolean tensor entries. *)
Definition Rltb (a b : R) : bool := if Rlt_dec a b then true else false.
Definition Rgtb (a b : R) : bool := Rltb b a.

(** [F.normalize(x, dim=-1)] of torch: [x / max(||x||_2, eps)] with the
    default [eps = 1e-12]. *)
Definition normalize_eps : R := 1e-12.
Definition F_normalize_row (v : vec3) : vec3 := vdivs v (Rmax (norm v) normalize_eps).
Definition F_normalize {N : nat} (x : tensor N) : tensor N := Vector.map F_normalize_row x.

(** ** Geometry primitives *)

(** [v - 2 * (v * n).sum(dim=1, keepdim=True) * n] *)
Definition reflect_row (v n : vec3) : vec3 :=
  vsub v (vscale (2 * vsum (vmul v n)) n).

Definition reflect {N : nat} (v n : tensor N) : tensor N :=
  Vector.map2 reflect_row v n.

Definition refract_row (uv n : vec3) (etai_over_etat : R) : vec3 :=
  let cos_theta := Rmin (vsum (vmul (vneg uv) n)) 1 in
  let r_out_perp := vscale etai_over_etat (vadd uv (vscale cos_theta n)) in
  let r_out_parallel := vscale (- sqrt (Rabs (1 - vsum (vpow2 r_out_perp)))) n in
  vadd r_out_perp r_out_parallel.

Definition refract {N : nat} (uv n : tensor N) (etai_over_etat : column N) : tensor N :=
  map3 refract_row uv n etai_over_etat.

(** Schlick's approximation. *)
Definition reflectance_row (cosine ref_idx : R) : R :=
  let r0 := ((1 - ref_idx) / (1 + ref_idx)) ^ 2 in
  r0 + (1 - r0) * (1 - cosine) ^ 5.

Definition reflectance {N : nat} (cosine ref_idx : column N) : column N :=
  Vector.map2 reflectance_row cosine ref_idx.

(** [refract] as the specification words it: with the dot product, the
    length of the perpendicular part, and the sum of the two parts. *)
Definition refract_spec_row (uv n : vec3) (eta_ratio : R) : vec3 :=
  let cos_theta := Rmin (dot (vneg uv) n) 1 in
  let r_perp := vscale eta_ratio (vadd uv (vscale cos_theta n)) in
  let r_parallel := vscale (- sqrt (Rabs (1 - (norm r_perp) ^ 2))) n in
  vadd r_perp r_parallel.

(** [reflect] as the specification words it. *)
Definition reflect_spec_row (v n : vec3) : vec3 :=
  vsub v (vscale (2 * dot v n) n).

(** The part of [w] along [n] and the part of [w] perpendicular to [n]. *)
Definition along (w n : vec3) : vec3 := vscale (dot w n) n.
Definition perp (w n : vec3) : vec3 := vsub w (along w n).

(** The sine of the incidence angle as [Dielectric.scatter] computes it from
    the clamped cosine. *)
Definition sin_of_cos (cos_theta : R) : R := sqrt (1 - cos_theta ^ 2).

(** ** Collaborators of the materials *)

(** Modelled from the spec: the class [HitRecord] of module [hittable] is
    not part of the sources.  Per batch of size [N] it carries the hit
    points, the surface normals and the front-face flags; these are the three
    attributes the methods below read. *)
Record HitRecord (N : nat) : Type := mkHit {
  point : tensor N;
  normal : tensor N;
  front_face : mask N
}.
Arguments mkHit {N} _ _ _.
Arguments point {N} _.
Arguments normal {N} _.
Arguments front_face {N} _.

(** The triple returned by [scatter]. *)
Record ScatterResult (N : nat) : Type := mkResult {
  scatter_mask : mask N;
  attenuation : tensor N;
  new_rays : rays N
}.
Arguments mkResult {N} _ _ _.
Arguments scatter_mask {N} _.
Arguments attenuation {N} _.
Arguments new_rays {N} _.

(** The builtins [min] and [max] of Python on two arguments: the first
    argument is kept unless the second is strictly smaller (larger). *)
Definition py_min (a b : R) : R := if Rlt_dec b a then b else a.
Definition py_max (a b : R) : R := if Rlt_dec a b then b else a.

(** Python's [a / b] on floats raises [ZeroDivisionError] when [b] is zero. *)
Definition py_truediv (a b : R) : option R :=
  if Req_dec_T b 0 then None else Some (a / b).

(** ** Lambertian *)

Module Lambertian.

Record t : Type := mk { albedo : vec3 }.

(** The threshold under which a scatter direction counts as degenerate. *)
Definition zero_threshold : R := 1e-8.

(** [random_unit_vector] is the tensor returned by
    [random_unit_vector((N, 3))]. *)
Definition scatter (self : t) {N : nat} (r_in : rays N) (hit_record : HitRecord N)
    (random_unit_vector : tensor N) : ScatterResult N :=
  let normals := normal hit_record in
  let points := point hit_record in
  let scatter_direction := Vector.map2 vadd normals random_unit_vector in
  let zero_mask := Vector.map (fun d => Rltb (norm d) zero_threshold) scatter_direction in
  let scatter_direction := masked_assign scatter_direction zero_mask normals in
  let scatter_direction := F_normalize scatter_direction in
  let new_origin := points in
  let new_direction := scatter_direction in
  let new_rays := stack new_origin new_direction in
  let attenuation := Vector.const (albedo self) N in
  let scatter_mask := Vector.const true N in
  mkResult scatter_mask attenuation new_rays.

End Lambertian.

(** ** Metal *)

Module Metal.

Record t : Type := mk { albedo : vec3; fuzz : R }.

(** [__init__]: the fuzz is clamped with the builtins. *)
Definition init (albedo : vec3) (fuzz : R) : t :=
  mk albedo (py_max 0 (py_min fuzz 1)).

(** The default value of the parameter [fuzz]. *)
Definition default_fuzz : R := 0.3.

Definition scatter (self : t) {N : nat} (r_in : rays N) (hit_record : HitRecord N)
    (random_unit_vector : tensor N) : ScatterResult N :=
  let normals := normal hit_record in
  let points := point hit_record in
  let in_directions := directions r_in in
  let in_directions := F_normalize in_directions in
  let reflected_direction := reflect in_directions normals in
  let reflected_direction :=
    Vector.map2 vadd reflected_direction
      (Vector.map (vscale (fuzz self)) random_unit_vector) in
  let reflected_direction := F_normalize reflected_direction in
  let dot_product := Vector.map2 (fun r n => vsum (vmul r n)) reflected_direction normals in
  let scatter_mask := Vector.map (fun d => Rgtb d 0) dot_product in
  let new_origin := points in
  let new_direction := reflected_direction in
  let new_rays := stack new_origin new_direction in
  let attenuation := Vector.const (albedo self) N in
  mkResult scatter_mask attenuation new_rays.

(** A call of [scatter] seen from the object: the method reads [albedo]
    and [fuzz] and assigns no attribute, so the object after the call is
    the object before it. *)
Definition scatter_call (self : t) {N : nat} (r_in : rays N)
    (hit_record : HitRecord N) (random_unit_vector : tensor N)
    : t * ScatterResult N :=
  (self, scatter self r_in hit_record random_unit_vector).

(** The objects a material can become through any number of calls of its
    only method. *)
Inductive evolves : t -> t -> Prop :=
| evolves_refl : forall m, evolves m m
| evolves_call : forall m m' N (r_in : rays N) (h : HitRecord N) (u : tensor N),
    evolves m m' ->
    evolves m (fst (scatter_call m' r_in h u)).

End Metal.

(** ** Dielectric *)

Module Dielectric.

Record t : Type := mk { refraction_index : R }.

(** The local variables of [scatter], each as a function of the values it is
    computed from, in the order of the source. *)

Definition unit_direction {N : nat} (r_in : rays N) : tensor N :=
  F_normalize (directions r_in).

(** [t.where(front_face.unsqueeze(1), t.full((N, 1), 1.0 / index),
    t.full((N, 1), index))]; both branches are built before the selection,
    so the division is evaluated whatever the flags are, and it raises when
    the index is zero. *)
Definition refraction_ratio (self : t) {N : nat} (front_face : mask N)
    : option (column N) :=
  match py_truediv 1 (refraction_index self) with
  | None => None
  | Some inverse_index =>
      Some (where_ front_face (Vector.const inverse_index N)
              (Vector.const (refraction_index self) N))
  end.

Definition cos_theta {N : nat} (unit_direction normals : tensor N) : column N :=
  Vector.map2 (fun u n => Rmin (vsum (vmul (vneg u) n)) 1) unit_direction normals.

Definition sin_theta {N : nat} (cos_theta : column N) : column N :=
  Vector.map sin_of_cos cos_theta.

Definition cannot_refract {N : nat} (refraction_ratio sin_theta : column N) : mask N :=
  Vector.map2 (fun r s => Rgtb (r * s) 1) refraction_ratio sin_theta.

Definition should_reflect {N : nat} (cannot_refract : mask N)
    (reflect_prob random_numbers : column N) : mask N :=
  map3 (fun (c : bool) (p u : R) => orb c (Rgtb p u))
    cannot_refract reflect_prob random_numbers.

(** [random_numbers] is the tensor returned by [t.rand(N, 1)].  The result
    is [None] when the division in [refraction_ratio] raises. *)
Definition scatter (self : t) {N : nat} (r_in : rays N) (hit_record : HitRecord N)
    (random_numbers : column N) : option (ScatterResult N) :=
  let normals := normal hit_record in
  let points := point hit_record in
  let front_face := front_face hit_record in
  let unit_direction := unit_direction r_in in
  let attenuation := Vector.const vones N in
  match refraction_ratio self front_face with
  | None => None
  | Some refraction_ratio =>
      let cos_theta := cos_theta unit_direction normals in
      let sin_theta := sin_theta cos_theta in
      let cannot_refract := cannot_refract refraction_ratio sin_theta in
      let reflect_prob := reflectance cos_theta refraction_ratio in
      let should_reflect := should_reflect cannot_refract reflect_prob random_numbers in
      let reflected_direction := reflect unit_direction normals in
      let refracted_direction := refract unit_direction normals refraction_ratio in
      let direction := where_ should_reflect reflected_direction refracted_direction in
      let new_rays := stack points direction in
      let scatter_mask := Vector.const true N in
      Some (mkResult scatter_mask attenuation new_rays)
  end.

End Dielectric.

(** * Properties *)

(** ** Rows of mapped batches *)

Section Rows.

Context {N : nat}.

Lemma row_map {A B : Type} (f : A -> B) (v : Vector.t A N) (i : Fin.t N) :
  row (Vector.map f v) i = f (row v i).
Proof. unfold row. now apply Vector.nth_map. Qed.

Lemma row_map2 {A B C : Type} (f : A -> B -> C) (v : Vector.t A N)
    (w : Vector.t B N) (i : Fin.t N) :
  row (Vector.map2 f v w) i = f (row v i) (row w i).
Proof. unfold row. now apply Vector.nth_map2. Qed.

Lemma row_map3 {A B C D : Type} (f : A -> B -> C -> D) (a : Vector.t A N)
    (b : Vector.t B N) (c : Vector.t C N) (i : Fin.t N) :
  row (map3 f a b c) i = f (row a i) (row b i) (row c i).
Proof. unfold map3. now rewrite !row_map2. Qed.

Lemma row_const {A : Type} (a : A) (i : Fin.t N) :
  row (Vector.const a N) i = a.
Proof. unfold row. apply Vector.const_nth. Qed.

Lemma row_where {A : Type} (c : mask N) (a b : Vector.t A N) (i : Fin.t N) :
  row (where_ c a b) i = if row c i then row a i else row b i.
Proof. unfold where_. now rewrite row_map3. Qed.

Lemma row_masked_assign (dst : tensor N) (m : mask N) (src : tensor N) (i : Fin.t N) :
  row (masked_assign dst m src) i = if row m i then row src i else row dst i.
Proof. unfold masked_assign. now rewrite row_map3. Qed.

Lemma row_stack (o d : tensor N) (i : Fin.t N) :
  row (stack o d) i = (row o i, row d i).
Proof. unfold stack. apply row_map2. Qed.

Lemma row_directions (r : rays N) (i : Fin.t N) :
  row (directions r) i = snd (row r i).
Proof. unfold directions. apply row_map. Qed.

Lemma row_reflect (v n : tensor N) (i : Fin.t N) :
  row (reflect v n) i = reflect_row (row v i) (row n i).
Proof. unfold reflect. apply row_map2. Qed.

Lemma row_refract (uv n : tensor N) (eta : column N) (i : Fin.t N) :
  row (refract uv n eta) i = refract_row (row uv i) (row n i) (row eta i).
Proof. unfold refract. apply row_map3. Qed.

Lemma row_reflectance (c x : column N) (i : Fin.t N) :
  row (reflectance c x) i = reflectance_row (row c i) (row x i).
Proof. unfold reflectance. apply row_map2. Qed.

Lemma row_F_normalize (x : tensor N) (i : Fin.t N) :
  row (F_normalize x) i = F_normalize_row (row x i).
Proof. unfold F_normalize. apply row_map. Qed.

(** Two batches with the same rows are the same batch. *)
Lemma batch_ext {A : Type} (v w : Vector.t A N) :
  (forall i, row v i = row w i) -> v = w.
Proof.
  intro H. apply Vector.eq_nth_iff. intros p q <-. apply H.
Qed.

End Rows.

(** ** Arithmetic of rows *)

Lemma vec3_eq (a b : vec3) :
  vx a = vx b -> vy a = vy b -> vz a = vz b -> a = b.
Proof. destruct a, b; simpl; intros -> -> ->; reflexivity. Qed.

Lemma vsum_vmul (a b : vec3) : vsum (vmul a b) = dot a b.
Proof. reflexivity. Qed.

Lemma dot_self_nonneg (a : vec3) : 0 <= dot a a.
Proof. unfold dot. nra. Qed.

Lemma norm_nonneg (a : vec3) : 0 <= norm a.
Proof. unfold norm. apply sqrt_pos. Qed.

Lemma norm_sqr (a : vec3) : norm a ^ 2 = dot a a.
Proof.
  unfold norm. rewrite vsum_vmul. simpl. rewrite Rmult_1_r.
  apply sqrt_def, dot_self_nonneg.
Qed.

Lemma norm_of_sqr (a : vec3) (l : R) : 0 <= l -> dot a a = l * l -> norm a = l.
Proof.
  intros Hl H. unfold norm. rewrite vsum_vmul, H. now apply sqrt_square.
Qed.

Lemma unit_dot (n : vec3) : norm n = 1 -> dot n n = 1.
Proof. intro H. rewrite <- norm_sqr, H. lra. Qed.

Lemma vsum_vpow2 (a : vec3) : vsum (vpow2 a) = dot a a.
Proof. unfold vsum, vpow2, dot. simpl. ring. Qed.

Lemma dot_vneg_l (a b : vec3) : dot (vneg a) b = - dot a b.
Proof. unfold dot, vneg. simpl. ring. Qed.

Lemma Rltb_true (a b : R) : Rltb a b = true <-> a < b.
Proof. unfold Rltb. destruct (Rlt_dec a b); split; intros; try easy. Qed.

Lemma Rltb_false (a b : R) : Rltb a b = false <-> b <= a.
Proof.
  unfold Rltb. destruct (Rlt_dec a b); split; intros; try easy; lra.
Qed.

Lemma Rgtb_true (a b : R) : Rgtb a b = true <-> a > b.
Proof. unfold Rgtb. rewrite Rltb_true. lra. Qed.

Lemma Rgtb_false (a b : R) : Rgtb a b = false <-> a <= b.
Proof. unfold Rgtb. now rewrite Rltb_false. Qed.

Lemma row_single {A : Type} (a : A) (i : Fin.t 1) : row (single a) i = a.
Proof.
  unfold row, single. apply (Fin.caseS' i); [reflexivity|].
  intro p. inversion p.
Qed.

(** Bilinearity of the dot product over the row operations. *)
Lemma dot_comm (a b : vec3) : dot a b = dot b a.
Proof. unfold dot. ring. Qed.

Lemma dot_vadd_l (a b c : vec3) : dot (vadd a b) c = dot a c + dot b c.
Proof. unfold dot, vadd. simpl. ring. Qed.

Lemma dot_vsub_l (a b c : vec3) : dot (vsub a b) c = dot a c - dot b c.
Proof. unfold dot, vsub. simpl. ring. Qed.

Lemma dot_vscale_l (s : R) (a b : vec3) : dot (vscale s a) b = s * dot a b.
Proof. unfold dot, vscale. simpl. ring. Qed.

Lemma dot_vadd_r (a b c : vec3) : dot c (vadd a b) = dot c a + dot c b.
Proof. unfold dot, vadd. simpl. ring. Qed.

Lemma dot_vscale_r (s : R) (a b : vec3) : dot b (vscale s a) = s * dot b a.
Proof. unfold dot, vscale. simpl. ring. Qed.

(** ** The geometry primitives *)

Lemma reflect_row_spec (v n : vec3) : reflect_row v n = reflect_spec_row v n.
Proof. reflexivity. Qed.

Lemma dot_reflect_row (v n : vec3) :
  dot n n = 1 -> dot (reflect_row v n) n = - dot v n.
Proof.
  intro Hn. unfold reflect_row. rewrite vsum_vmul, dot_vsub_l, dot_vscale_l, Hn.
  ring.
Qed.

(** A reflection about a unit normal keeps the length. *)
Lemma dot_reflect_row_self (v n : vec3) :
  dot n n = 1 -> dot (reflect_row v n) (reflect_row v n) = dot v v.
Proof.
  intro Hn. unfold reflect_row. rewrite vsum_vmul.
  set (d := dot v n).
  transitivity (dot v v - 4 * d * dot v n + 4 * d * d * dot n n).
  - unfold dot, vsub, vscale. simpl. ring.
  - rewrite Hn. unfold d. ring.
Qed.

(** C6: for every batch [v] and every row whose normal is of unit length,
    [reflect] returns [v - 2*dot(v,n)*n] on that row; the result has the
    component of [v] along [n] reversed ([dot(reflect(v,n), n) = -dot(v,n)])
    and the component of [v] perpendicular to [n] unchanged. *)
Theorem reflect_reverses_normal_component :
  forall (N : nat) (v n : tensor N) (i : Fin.t N),
    norm (row n i) = 1 ->
    row (reflect v n) i = vsub (row v i) (vscale (2 * dot (row v i) (row n i)) (row n i))
    /\ dot (row (reflect v n) i) (row n i) = - dot (row v i) (row n i)
    /\ along (row (reflect v n) i) (row n i) = vneg (along (row v i) (row n i))
    /\ perp (row (reflect v n) i) (row n i) = perp (row v i) (row n i).
Proof.
  intros N v n i Hunit. apply unit_dot in Hunit.
  rewrite row_reflect.
  pose proof (dot_reflect_row (row v i) (row n i) Hunit) as Hd.
  repeat split.
  - exact Hd.
  - unfold along. rewrite Hd. unfold vneg, vscale. simpl.
    apply vec3_eq; simpl; ring.
  - unfold perp, along. rewrite Hd.
    unfold reflect_row. rewrite vsum_vmul.
    apply vec3_eq; simpl; ring.
Qed.

Lemma norm_e2 : norm (mkV 0 1 0) = 1.
Proof. apply norm_of_sqr; [lra | unfold dot; simpl; ring]. Qed.

Lemma norm_e1 : norm (mkV 1 0 0) = 1.
Proof. apply norm_of_sqr; [lra | unfold dot; simpl; ring]. Qed.

Lemma reflect_reverses_normal_component_witness :
  norm (row (single (mkV 0 1 0)) Fin.F1) = 1
  /\ dot (row (reflect (single (mkV 1 (-1) 0)) (single (mkV 0 1 0))) Fin.F1)
         (row (single (mkV 0 1 0)) Fin.F1)
     = - dot (row (single (mkV 1 (-1) 0)) Fin.F1) (row (single (mkV 0 1 0)) Fin.F1).
Proof.
  split.
  - exact norm_e2.
  - apply (reflect_reverses_normal_component 1
             (single (mkV 1 (-1) 0)) (single (mkV 0 1 0)) Fin.F1).
    exact norm_e2.
Defined.

Lemma refract_row_spec (uv n : vec3) (eta : R) :
  refract_row uv n eta = refract_spec_row uv n eta.
Proof.
  unfold refract_row, refract_spec_row.
  rewrite vsum_vmul, vsum_vpow2, <- norm_sqr. reflexivity.
Qed.

Lemma sin_of_cos_0 : sin_of_cos 0 = 1.
Proof.
  unfold sin_of_cos. replace (1 - 0 ^ 2) with 1 by ring. apply sqrt_1.
Qed.

Lemma dot_e1_e2 : dot (vneg (mkV 1 0 0)) (mkV 0 1 0) = 0.
Proof. unfold dot, vneg. simpl. ring. Qed.

(** C2: on every row [refract] returns [r_perp + r_parallel] with
    [cos_theta = min(dot(-uv, n), 1)], [r_perp = eta_ratio * (uv + cos_theta * n)]
    and [r_parallel = -sqrt(|1 - |r_perp|^2|) * n].  No total internal
    reflection is tested: the formula is returned on all inputs, also where
    [eta_ratio * sin_theta > 1], and there the result is not the reflection. *)
Theorem refract_is_perp_plus_parallel :
  (forall (N : nat) (uv n : tensor N) (eta_ratio : column N),
      refract uv n eta_ratio = map3 refract_spec_row uv n eta_ratio)
  /\ (exists (uv n : vec3) (eta_ratio : R),
        eta_ratio * sin_of_cos (Rmin (dot (vneg uv) n) 1) > 1
        /\ row (refract (single uv) (single n) (single eta_ratio)) Fin.F1
           = refract_spec_row uv n eta_ratio
        /\ row (refract (single uv) (single n) (single eta_ratio)) Fin.F1
           <> reflect_row uv n).
Proof.
  split.
  - intros N uv n eta. apply batch_ext. intro i.
    rewrite row_refract, row_map3. apply refract_row_spec.
  - exists (mkV 1 0 0), (mkV 0 1 0), 2. repeat split.
    + rewrite dot_e1_e2, Rmin_left by lra. rewrite sin_of_cos_0. lra.
    + rewrite row_refract, !row_single. apply refract_row_spec.
    + rewrite row_refract, !row_single. intro H.
      apply (f_equal vx) in H. revert H.
      unfold refract_row, reflect_row. rewrite !vsum_vmul, dot_e1_e2.
      rewrite Rmin_left by lra. simpl. lra.
Qed.

(** The Schlick base reflectance lies in [[0, 1]] for a positive index. *)
Lemma r0_le_1 (x : R) : 0 < x -> ((1 - x) / (1 + x)) ^ 2 <= 1.
Proof.
  intro Hx. set (q := (1 - x) / (1 + x)).
  assert (Hq : q * (1 + x) = 1 - x) by (unfold q; field; lra).
  assert (-1 <= q <= 1) by (split; nra).
  nra.
Qed.

(** C7: for a positive index [reflectance] at cosine 1 is exactly
    [r0 = ((1 - ref_idx)/(1 + ref_idx))^2], and for that index it does not
    decrease when the cosine decreases within [[0, 1]]. *)
Theorem reflectance_at_one_and_monotone :
  forall (N : nat) (ref_idx : column N) (i : Fin.t N),
    0 < row ref_idx i ->
    (forall cosine : column N,
        row cosine i = 1 ->
        row (reflectance cosine ref_idx) i
        = ((1 - row ref_idx i) / (1 + row ref_idx i)) ^ 2)
    /\ (forall c_hi c_lo : column N,
          0 <= row c_lo i -> row c_lo i <= row c_hi i -> row c_hi i <= 1 ->
          row (reflectance c_hi ref_idx) i <= row (reflectance c_lo ref_idx) i).
Proof.
  intros N ref_idx i Hpos. split.
  - intros cosine Hc. rewrite row_reflectance, Hc. unfold reflectance_row.
    ring.
  - intros c_hi c_lo H0 Hle H1. rewrite !row_reflectance.
    unfold reflectance_row.
    pose proof (r0_le_1 _ Hpos) as Hr0.
    assert (Hp : (1 - row c_hi i) ^ 5 <= (1 - row c_lo i) ^ 5)
      by (apply pow_incr; lra).
    nra.
Qed.

Lemma reflectance_at_one_and_monotone_witness :
  0 < row (single 1.5) Fin.F1
  /\ row (reflectance (single 1) (single 1.5)) Fin.F1
     = ((1 - row (single 1.5) Fin.F1) / (1 + row (single 1.5) Fin.F1)) ^ 2.
Proof.
  assert (Hpos : 0 < row (single 1.5) Fin.F1) by (rewrite row_single; lra).
  split; [exact Hpos|].
  apply (proj1 (reflectance_at_one_and_monotone 1 (single 1.5) Fin.F1 Hpos)).
  apply row_single.
Defined.

(** The squared length of the perpendicular part of the refracted row, for
    unit rows and an unclamped cosine [c = dot(-uv, n)]. *)
Lemma r_perp_sqr (uv n : vec3) (eta c : R) :
  dot uv uv = 1 -> dot n n = 1 -> c = dot (vneg uv) n ->
  dot (vscale eta (vadd uv (vscale c n))) (vscale eta (vadd uv (vscale c n)))
  = eta ^ 2 * (1 - c ^ 2).
Proof.
  intros Hu Hn Hc. rewrite dot_vneg_l in Hc.
  rewrite dot_vscale_l, dot_vscale_r, dot_vadd_l, !dot_vadd_r.
  rewrite dot_vscale_l, !dot_vscale_r, dot_vscale_l.
  rewrite (dot_comm n uv), Hu, Hn.
  replace (dot uv n) with (- c) by lra. ring.
Qed.

(** The perpendicular part is orthogonal to the normal. *)
Lemma r_perp_orth (uv n : vec3) (eta c : R) :
  dot n n = 1 -> c = dot (vneg uv) n ->
  dot (vscale eta (vadd uv (vscale c n))) n = 0.
Proof.
  intros Hn Hc. rewrite dot_vneg_l in Hc.
  rewrite dot_vscale_l, dot_vadd_l, dot_vscale_l, Hn.
  replace (dot uv n) with (- c) by lra. ring.
Qed.

(** The squared length of what [refract] returns on a row of unit vectors
    with cosine in range: [p + |1 - p|] for [p = eta^2 * sin_theta^2]. *)
Lemma refract_row_sqr (uv n : vec3) (eta : R) :
  norm uv = 1 -> norm n = 1 -> dot (vneg uv) n <= 1 ->
  dot (refract_row uv n eta) (refract_row uv n eta)
  = eta ^ 2 * (1 - dot (vneg uv) n ^ 2)
    + Rabs (1 - eta ^ 2 * (1 - dot (vneg uv) n ^ 2)).
Proof.
  intros Hu Hn Hc. apply unit_dot in Hu. apply unit_dot in Hn.
  unfold refract_row. rewrite vsum_vmul, vsum_vpow2.
  rewrite Rmin_left by exact Hc.
  set (c := dot (vneg uv) n).
  set (rp := vscale eta (vadd uv (vscale c n))).
  assert (Hp : dot rp rp = eta ^ 2 * (1 - c ^ 2))
    by (apply r_perp_sqr; auto).
  assert (Ho : dot rp n = 0) by (apply r_perp_orth; auto).
  rewrite Hp.
  set (k := sqrt (Rabs (1 - eta ^ 2 * (1 - c ^ 2)))).
  assert (Hk : k * k = Rabs (1 - eta ^ 2 * (1 - c ^ 2)))
    by (apply sqrt_def, Rabs_pos).
  rewrite dot_vadd_l, !dot_vadd_r, dot_vscale_l, !dot_vscale_r, dot_vscale_l.
  rewrite (dot_comm n rp), Hp, Ho, Hn, <- Hk. ring.
Qed.

Lemma sin_of_cos_sqr (c : R) : -1 <= c <= 1 -> sin_of_cos c ^ 2 = 1 - c ^ 2.
Proof.
  intro Hc. unfold sin_of_cos. set (s := 1 - c ^ 2).
  assert (0 <= s) by (unfold s; nra).
  replace (sqrt s ^ 2) with (sqrt s * sqrt s) by ring.
  now rewrite sqrt_def.
Qed.

(** C10, amended: for unit [uv] and [n] with [cos_theta = dot(-uv, n)] in
    [[0, 1]] and an [eta_ratio] with [|eta_ratio * sin_theta| <= 1], the row
    returned by [refract] is of unit length. *)
Theorem refract_unit_length :
  forall (N : nat) (uv n : tensor N) (eta_ratio : column N) (i : Fin.t N),
    norm (row uv i) = 1 ->
    norm (row n i) = 1 ->
    0 <= dot (vneg (row uv i)) (row n i) <= 1 ->
    Rabs (row eta_ratio i * sin_of_cos (dot (vneg (row uv i)) (row n i))) <= 1 ->
    norm (row (refract uv n eta_ratio) i) = 1.
Proof.
  intros N uv n eta i Hu Hn Hc Hs. rewrite row_refract.
  set (u := row uv i) in *. set (m := row n i) in *. set (e := row eta i) in *.
  apply norm_of_sqr; [lra|].
  rewrite refract_row_sqr by tauto.
  set (c := dot (vneg u) m) in *.
  assert (Hsin : sin_of_cos c ^ 2 = 1 - c ^ 2) by (apply sin_of_cos_sqr; lra).
  assert (Hp : e ^ 2 * (1 - c ^ 2) <= 1).
  { rewrite <- Hsin, <- Rpow_mult_distr.
    assert (-1 <= e * sin_of_cos c <= 1)
      by (revert Hs; unfold Rabs; destruct (Rcase_abs _); lra).
    nra. }
  rewrite Rabs_right by lra. ring.
Qed.

Lemma refract_unit_length_witness :
  norm (row (single (mkV 1 0 0)) Fin.F1) = 1
  /\ norm (row (single (mkV 0 1 0)) Fin.F1) = 1
  /\ norm (row (refract (single (mkV 1 0 0)) (single (mkV 0 1 0)) (single 0.5))
             Fin.F1) = 1.
Proof.
  repeat split.
  - exact norm_e1.
  - exact norm_e2.
  - apply (refract_unit_length 1 (single (mkV 1 0 0)) (single (mkV 0 1 0))
             (single 0.5) Fin.F1).
    + exact norm_e1.
    + exact norm_e2.
    + rewrite !row_single, dot_e1_e2. lra.
    + rewrite !row_single, dot_e1_e2, sin_of_cos_0.
      apply Rabs_le. lra.
Defined.

(** C10 as stated fails: with [eta_ratio = -2] on the unit rows
    [uv = (1,0,0)], [n = (0,1,0)] the cosine is 0, [eta_ratio * sin_theta]
    is [-2 <= 1], and the returned row has squared length 7. *)
Lemma refract_negative_ratio_not_unit :
  let uv := single (mkV 1 0 0) in
  let n := single (mkV 0 1 0) in
  let eta_ratio := single (-2) in
  let cos_theta := dot (vneg (row uv Fin.F1)) (row n Fin.F1) in
  norm (row uv Fin.F1) = 1
  /\ norm (row n Fin.F1) = 1
  /\ 0 <= cos_theta <= 1
  /\ row eta_ratio Fin.F1 * sin_of_cos cos_theta <= 1
  /\ norm (row (refract uv n eta_ratio) Fin.F1) <> 1.
Proof.
  cbv zeta. rewrite row_refract, !row_single, dot_e1_e2, sin_of_cos_0.
  repeat split; try lra.
  - exact norm_e1.
  - exact norm_e2.
  - intro H. apply unit_dot in H. revert H.
    rewrite refract_row_sqr; [| exact norm_e1 | exact norm_e2 | rewrite dot_e1_e2; lra].
    rewrite dot_e1_e2.
    replace (1 - (-2) ^ 2 * (1 - 0 ^ 2)) with (- 3) by ring.
    rewrite Rabs_left by lra. lra.
Qed.

(** ** Metal: the clamped fuzz *)

Lemma py_min_spec (a b : R) : py_min a b = Rmin a b.
Proof.
  unfold py_min, Rmin.
  destruct (Rlt_dec b a), (Rle_dec a b); lra.
Qed.

Lemma py_max_spec (a b : R) : py_max a b = Rmax a b.
Proof.
  unfold py_max, Rmax.
  destruct (Rlt_dec a b), (Rle_dec a b); lra.
Qed.

Lemma fuzz_init (albedo : vec3) (fuzz : R) :
  Metal.fuzz (Metal.init albedo fuzz) = Rmax 0 (Rmin fuzz 1).
Proof. unfold Metal.init. simpl. now rewrite py_min_spec, py_max_spec. Qed.

(** No call of [scatter] changes the configuration. *)
Lemma evolves_same (m m' : Metal.t) : Metal.evolves m m' -> m' = m.
Proof.
  induction 1 as [m | m m' N r h u _ IH].
  - reflexivity.
  - unfold Metal.scatter_call. simpl. exact IH.
Qed.

(** C9: the fuzz stored by the constructor is the argument clamped to
    [[0, 1]]: the argument itself when it lies in [[0, 1]], 0 when it is
    negative, 1 when it exceeds 1; and it is the same after any number of
    calls of [scatter]. *)
Theorem metal_fuzz_clamped :
  forall (albedo : vec3) (fuzz : R),
    let self := Metal.init albedo fuzz in
    Metal.fuzz self = Rmax 0 (Rmin fuzz 1)
    /\ 0 <= Metal.fuzz self <= 1
    /\ (0 <= fuzz <= 1 -> Metal.fuzz self = fuzz)
    /\ (fuzz < 0 -> Metal.fuzz self = 0)
    /\ (1 < fuzz -> Metal.fuzz self = 1)
    /\ (forall later : Metal.t,
          Metal.evolves self later -> Metal.fuzz later = Metal.fuzz self).
Proof.
  intros albedo fuzz self. unfold self. rewrite fuzz_init.
  assert (Hclamp : forall f, 0 <= Rmax 0 (Rmin f 1) <= 1
                             /\ (0 <= f <= 1 -> Rmax 0 (Rmin f 1) = f)
                             /\ (f < 0 -> Rmax 0 (Rmin f 1) = 0)
                             /\ (1 < f -> Rmax 0 (Rmin f 1) = 1)).
  { intro f. unfold Rmax, Rmin.
    destruct (Rle_dec f 1); destruct (Rle_dec 0 _); repeat split; intros; lra. }
  destruct (Hclamp fuzz) as (H1 & H2 & H3 & H4).
  repeat split; try tauto.
  intros later Hev. apply evolves_same in Hev. now rewrite Hev, fuzz_init.
Qed.

Lemma metal_fuzz_clamped_witness :
  1 < 2.5
  /\ Metal.fuzz (Metal.init (mkV 0.8 0.8 0.8) 2.5) = 1
  /\ Metal.fuzz
       (fst (Metal.scatter_call (Metal.init (mkV 0.8 0.8 0.8) 2.5)
               (single (vzero, mkV 1 (-1) 0))
               (mkHit (single vzero) (single (mkV 0 1 0)) (single true))
               (single (mkV 0 0 1))))
     = Metal.fuzz (Metal.init (mkV 0.8 0.8 0.8) 2.5).
Proof.
  assert (H : 1 < 2.5) by lra.
  pose proof (metal_fuzz_clamped (mkV 0.8 0.8 0.8) 2.5) as (_ & _ & _ & _ & Hhi & Hlater).
  split; [|split].
  - exact H.
  - exact (Hhi H).
  - apply Hlater. apply Metal.evolves_call. apply Metal.evolves_refl.
Defined.

(** ** Normalisation *)

Lemma normalize_eps_pos : 0 < normalize_eps.
Proof. unfold normalize_eps. lra. Qed.

Lemma normalize_denominator_pos (v : vec3) : 0 < Rmax (norm v) normalize_eps.
Proof.
  pose proof normalize_eps_pos. pose proof (Rmax_r (norm v) normalize_eps). lra.
Qed.

Lemma dot_vdivs_l (a b : vec3) (s : R) : dot (vdivs a s) b = dot a b / s.
Proof. unfold dot, vdivs. simpl. unfold Rdiv. ring. Qed.

Lemma dot_vdivs_self (a : vec3) (s : R) :
  s <> 0 -> dot (vdivs a s) (vdivs a s) = dot a a / (s * s).
Proof. intro Hs. unfold dot, vdivs. simpl. field. exact Hs. Qed.

(** A row at least [eps] long is scaled to unit length. *)
Lemma F_normalize_row_unit (v : vec3) :
  normalize_eps <= norm v -> norm (F_normalize_row v) = 1.
Proof.
  intro Hv. unfold F_normalize_row. rewrite Rmax_left by exact Hv.
  pose proof normalize_eps_pos as Heps.
  apply norm_of_sqr; [lra|].
  rewrite dot_vdivs_self by lra. rewrite <- norm_sqr. field. lra.
Qed.

(** A unit row is left as it is. *)
Lemma F_normalize_row_of_unit (v : vec3) : norm v = 1 -> F_normalize_row v = v.
Proof.
  intro Hv. unfold F_normalize_row. rewrite Hv.
  rewrite Rmax_left by (unfold normalize_eps; lra).
  apply vec3_eq; simpl; field.
Qed.

Lemma norm_vzero : norm vzero = 0.
Proof. apply norm_of_sqr; [lra | unfold dot, vzero; simpl; ring]. Qed.

Lemma F_normalize_row_vzero : F_normalize_row vzero = vzero.
Proof.
  unfold F_normalize_row. pose proof (normalize_denominator_pos vzero).
  apply vec3_eq; simpl; field; lra.
Qed.

(** ** Lambertian *)

Lemma row_lambertian_direction (self : Lambertian.t) (N : nat) (r_in : rays N)
    (hit : HitRecord N) (u : tensor N) (i : Fin.t N) :
  snd (row (new_rays (Lambertian.scatter self r_in hit u)) i)
  = F_normalize_row
      (if Rltb (norm (vadd (row (normal hit) i) (row u i))) Lambertian.zero_threshold
       then row (normal hit) i
       else vadd (row (normal hit) i) (row u i)).
Proof.
  unfold Lambertian.scatter. simpl.
  rewrite row_stack. simpl.
  rewrite row_F_normalize, row_masked_assign, row_map, row_map2.
  reflexivity.
Qed.

(** C4: for unit normals and any random sample, [Lambertian.scatter] keeps
    every element ([scatter_mask] all true) and every new direction is of
    unit length, hence not the zero row; where [normal + sample] is shorter
    than [1e-8] the new direction is the bare normal. *)
Theorem lambertian_direction_unit :
  forall (self : Lambertian.t) (N : nat) (r_in : rays N) (hit_record : HitRecord N)
         (random_unit_vector : tensor N),
    (forall i, norm (row (normal hit_record) i) = 1) ->
    let result := Lambertian.scatter self r_in hit_record random_unit_vector in
    forall i : Fin.t N,
      row (scatter_mask result) i = true
      /\ norm (snd (row (new_rays result) i)) = 1
      /\ snd (row (new_rays result) i) <> vzero
      /\ (norm (vadd (row (normal hit_record) i) (row random_unit_vector i)) < 1e-8 ->
          snd (row (new_rays result) i) = row (normal hit_record) i).
Proof.
  intros self N r_in hit u Hunit result i. specialize (Hunit i).
  assert (Hlen : norm (snd (row (new_rays result) i)) = 1).
  { unfold result. rewrite row_lambertian_direction.
    destruct (Rltb _ _) eqn:Hz.
    - rewrite F_normalize_row_of_unit; assumption.
    - apply F_normalize_row_unit. apply Rltb_false in Hz.
      unfold Lambertian.zero_threshold, normalize_eps in *. lra. }
  repeat split.
  - unfold result, Lambertian.scatter. simpl. apply row_const.
  - exact Hlen.
  - intro H0. rewrite H0, norm_vzero in Hlen. lra.
  - intro Hsmall. unfold result. rewrite row_lambertian_direction.
    apply Rltb_true in Hsmall. unfold Lambertian.zero_threshold. rewrite Hsmall.
    now apply F_normalize_row_of_unit.
Qed.

Lemma lambertian_direction_unit_witness :
  let hit := mkHit (single vzero) (single (mkV 0 1 0)) (single true) in
  let result :=
    Lambertian.scatter (Lambertian.mk (mkV 0.5 0.5 0.5))
      (single (vzero, mkV 0 (-1) 0)) hit (single (mkV 0 (-1) 0)) in
  (forall i, norm (row (normal hit) i) = 1)
  /\ row (scatter_mask result) Fin.F1 = true
  /\ norm (snd (row (new_rays result) Fin.F1)) = 1.
Proof.
  intros hit result.
  assert (Hunit : forall i, norm (row (normal hit) i) = 1)
    by (intro i; exact (eq_trans (f_equal norm (row_single (mkV 0 1 0) i)) norm_e2)).
  split; [exact Hunit|].
  pose proof (lambertian_direction_unit (Lambertian.mk (mkV 0.5 0.5 0.5)) 1
                (single (vzero, mkV 0 (-1) 0)) hit (single (mkV 0 (-1) 0))
                Hunit Fin.F1) as (Hmask & Hlen & _).
  split; [exact Hmask | exact Hlen].
Defined.

(** ** Metal: the mirror *)

Lemma row_metal_direction (self : Metal.t) (N : nat) (r_in : rays N)
    (hit : HitRecord N) (u : tensor N) (i : Fin.t N) :
  snd (row (new_rays (Metal.scatter self r_in hit u)) i)
  = F_normalize_row
      (vadd (reflect_row (F_normalize_row (snd (row r_in i))) (row (normal hit) i))
            (vscale (Metal.fuzz self) (row u i))).
Proof.
  unfold Metal.scatter. simpl. rewrite row_stack. simpl.
  rewrite row_F_normalize, row_map2, row_reflect, row_F_normalize,
    row_directions, row_map.
  reflexivity.
Qed.

Lemma row_metal_mask (self : Metal.t) (N : nat) (r_in : rays N)
    (hit : HitRecord N) (u : tensor N) (i : Fin.t N) :
  row (scatter_mask (Metal.scatter self r_in hit u)) i
  = Rgtb (dot (snd (row (new_rays (Metal.scatter self r_in hit u)) i))
              (row (normal hit) i)) 0.
Proof.
  rewrite row_metal_direction.
  unfold Metal.scatter. simpl.
  rewrite row_map, row_map2, vsum_vmul.
  rewrite row_F_normalize, row_map2, row_reflect, row_F_normalize,
    row_directions, row_map.
  reflexivity.
Qed.

Lemma vadd_vscale_0 (a b : vec3) : vadd a (vscale 0 b) = a.
Proof. apply vec3_eq; simpl; ring. Qed.

Lemma reflect_row_vzero (n : vec3) : reflect_row vzero n = vzero.
Proof.
  unfold reflect_row, vzero, vsum, vmul, vsub, vscale.
  apply vec3_eq; simpl; ring.
Qed.

(** Normalising does not change the side of the surface a row points to. *)
Lemma dot_F_normalize_row_sign (v n : vec3) :
  dot (F_normalize_row v) n <= 0 <-> dot v n <= 0.
Proof.
  unfold F_normalize_row. rewrite dot_vdivs_l.
  pose proof (normalize_denominator_pos v) as Hd.
  set (s := Rmax (norm v) normalize_eps) in *.
  assert (Hi : 0 < / s) by (apply Rinv_0_lt_compat; exact Hd).
  unfold Rdiv. split; intro H; nra.
Qed.

(** C3, amended: for [Metal] with fuzz 0 and a unit normal on row [i],
    [scatter_mask[i]] is false exactly when the mirror reflection of the
    normalised incoming direction does not point away from the surface, and
    the new direction is that mirror reflection whenever the incoming
    direction is the zero row or at least [1e-12] long. *)
Theorem metal_mirror_without_fuzz :
  forall (self : Metal.t) (N : nat) (r_in : rays N) (hit_record : HitRecord N)
         (random_unit_vector : tensor N) (i : Fin.t N),
    Metal.fuzz self = 0 ->
    norm (row (normal hit_record) i) = 1 ->
    let result := Metal.scatter self r_in hit_record random_unit_vector in
    let mirror :=
      reflect_row (F_normalize_row (snd (row r_in i))) (row (normal hit_record) i) in
    (row (scatter_mask result) i = false <-> dot mirror (row (normal hit_record) i) <= 0)
    /\ (snd (row r_in i) = vzero \/ 1e-12 <= norm (snd (row r_in i)) ->
        snd (row (new_rays result) i) = mirror).
Proof.
  intros self N r_in hit u i Hfuzz Hn result mirror.
  assert (Hdir : snd (row (new_rays result) i) = F_normalize_row mirror).
  { unfold result. rewrite row_metal_direction, Hfuzz, vadd_vscale_0.
    reflexivity. }
  split.
  - unfold result. rewrite row_metal_mask. fold result. rewrite Hdir.
    rewrite Rgtb_false. apply dot_F_normalize_row_sign.
  - intros Hd. rewrite Hdir. unfold mirror. destruct Hd as [Hd | Hd].
    + rewrite Hd, F_normalize_row_vzero, reflect_row_vzero.
      apply F_normalize_row_vzero.
    + apply F_normalize_row_of_unit.
      apply norm_of_sqr; [lra|].
      rewrite dot_reflect_row_self by (now apply unit_dot).
      rewrite Rmult_1_r. apply unit_dot, F_normalize_row_unit. exact Hd.
Qed.

Lemma fuzz_init_0 (albedo : vec3) : Metal.fuzz (Metal.init albedo 0) = 0.
Proof.
  rewrite fuzz_init. rewrite Rmin_left by lra. apply Rmax_left. lra.
Qed.

Lemma metal_mirror_without_fuzz_witness :
  let self := Metal.init (mkV 0.8 0.8 0.8) 0 in
  let r_in := single (vzero, mkV 1 (-1) 0) in
  let hit := mkHit (single vzero) (single (mkV 0 1 0)) (single true) in
  let result := Metal.scatter self r_in hit (single (mkV 0 0 1)) in
  Metal.fuzz self = 0
  /\ norm (row (normal hit) Fin.F1) = 1
  /\ 1e-12 <= norm (snd (row r_in Fin.F1))
  /\ snd (row (new_rays result) Fin.F1)
     = reflect_row (F_normalize_row (snd (row r_in Fin.F1))) (row (normal hit) Fin.F1).
Proof.
  intros self r_in hit result.
  assert (Hf : Metal.fuzz self = 0) by apply fuzz_init_0.
  assert (Hn : norm (row (normal hit) Fin.F1) = 1) by exact norm_e2.
  assert (Hd : 1e-12 <= norm (snd (row r_in Fin.F1))).
  { change (1e-12 <= norm (mkV 1 (-1) 0)).
    pose proof (norm_sqr (mkV 1 (-1) 0)) as Hs.
    pose proof (norm_nonneg (mkV 1 (-1) 0)) as Hp.
    unfold dot in Hs. simpl in Hs. nra. }
  repeat split; try assumption.
  apply (proj2 (metal_mirror_without_fuzz self 1 r_in hit (single (mkV 0 0 1))
                  Fin.F1 Hf Hn)).
  right. exact Hd.
Defined.

Lemma norm_on_x (l : R) : 0 <= l -> norm (mkV l 0 0) = l.
Proof. intro Hl. apply norm_of_sqr; [exact Hl | unfold dot; simpl; ring]. Qed.

(** [F.normalize] on a direction shorter than [eps] divides by [eps]: the
    result is not of unit length. *)
Lemma F_normalize_row_short : F_normalize_row (mkV 1e-13 0 0) = mkV 0.1 0 0.
Proof.
  unfold F_normalize_row. rewrite norm_on_x by lra.
  unfold normalize_eps. rewrite Rmax_right by lra.
  apply vec3_eq; simpl; lra.
Qed.

Lemma F_normalize_row_tenth : F_normalize_row (mkV 0.1 0 0) = mkV 1 0 0.
Proof.
  unfold F_normalize_row. rewrite norm_on_x by lra.
  unfold normalize_eps. rewrite Rmax_left by lra.
  apply vec3_eq; simpl; lra.
Qed.

(** C3 as stated fails: with fuzz 0, the unit normal [(0,1,0)] and the
    incoming direction [(1e-13, 0, 0)], the normalised incoming direction is
    [(0.1, 0, 0)], its mirror reflection is [(0.1, 0, 0)], and the second
    normalisation returns [(1, 0, 0)] as the new direction. *)
Lemma metal_short_direction_not_mirror :
  let self := Metal.init (mkV 0.8 0.8 0.8) 0 in
  let r_in := single (vzero, mkV 1e-13 0 0) in
  let hit := mkHit (single vzero) (single (mkV 0 1 0)) (single true) in
  let result := Metal.scatter self r_in hit (single (mkV 0 0 1)) in
  let mirror :=
    reflect_row (F_normalize_row (snd (row r_in Fin.F1))) (row (normal hit) Fin.F1) in
  Metal.fuzz self = 0
  /\ (forall i, norm (row (normal hit) i) = 1)
  /\ mirror = mkV 0.1 0 0
  /\ snd (row (new_rays result) Fin.F1) = mkV 1 0 0
  /\ snd (row (new_rays result) Fin.F1) <> mirror.
Proof.
  intros self r_in hit result mirror.
  assert (Hf : Metal.fuzz self = 0) by apply fuzz_init_0.
  assert (Hm : mirror = mkV 0.1 0 0).
  { unfold mirror. change (snd (row r_in Fin.F1)) with (mkV 1e-13 0 0).
    change (row (normal hit) Fin.F1) with (mkV 0 1 0).
    rewrite F_normalize_row_short.
    unfold reflect_row, vsum, vmul, vsub, vscale.
    apply vec3_eq; simpl; lra. }
  assert (Hr : snd (row (new_rays result) Fin.F1) = mkV 1 0 0).
  { unfold result. rewrite row_metal_direction, Hf, vadd_vscale_0.
    fold mirror. rewrite Hm. apply F_normalize_row_tenth. }
  split; [exact Hf|]. split.
  - intro i. exact (eq_trans (f_equal norm (row_single (mkV 0 1 0) i)) norm_e2).
  - split; [exact Hm|]. split; [exact Hr|].
    rewrite Hr, Hm. intro H. apply (f_equal vx) in H. simpl in H. lra.
Qed.

(** ** Dielectric *)

Section DielectricRows.

Context {N : nat}.

Lemma row_unit_direction (r_in : rays N) (i : Fin.t N) :
  row (Dielectric.unit_direction r_in) i = F_normalize_row (snd (row r_in i)).
Proof.
  unfold Dielectric.unit_direction. now rewrite row_F_normalize, row_directions.
Qed.

Lemma row_cos_theta (u n : tensor N) (i : Fin.t N) :
  row (Dielectric.cos_theta u n) i = Rmin (dot (vneg (row u i)) (row n i)) 1.
Proof. unfold Dielectric.cos_theta. now rewrite row_map2. Qed.

Lemma row_sin_theta (c : column N) (i : Fin.t N) :
  row (Dielectric.sin_theta c) i = sin_of_cos (row c i).
Proof. unfold Dielectric.sin_theta. apply row_map. Qed.

Lemma row_cannot_refract (ratio s : column N) (i : Fin.t N) :
  row (Dielectric.cannot_refract ratio s) i = Rgtb (row ratio i * row s i) 1.
Proof. unfold Dielectric.cannot_refract. now rewrite row_map2. Qed.

Lemma row_should_reflect (c : mask N) (p u : column N) (i : Fin.t N) :
  row (Dielectric.should_reflect c p u) i = orb (row c i) (Rgtb (row p i) (row u i)).
Proof. unfold Dielectric.should_reflect. now rewrite row_map3. Qed.

(** The ratio exists exactly when the index is not zero, and then it is
    [1 / index] on front faces and [index] elsewhere. *)
Lemma refraction_ratio_some (self : Dielectric.t) (ff : mask N) :
  Dielectric.refraction_index self <> 0 ->
  Dielectric.refraction_ratio self ff
  = Some (where_ ff (Vector.const (1 / Dielectric.refraction_index self) N)
            (Vector.const (Dielectric.refraction_index self) N)).
Proof.
  intro H. unfold Dielectric.refraction_ratio, py_truediv.
  destruct (Req_dec_T _ 0); [contradiction | reflexivity].
Qed.

Lemma refraction_ratio_none (self : Dielectric.t) (ff : mask N) :
  Dielectric.refraction_index self = 0 ->
  Dielectric.refraction_ratio self ff = None.
Proof.
  intro H. unfold Dielectric.refraction_ratio, py_truediv.
  destruct (Req_dec_T _ 0); [reflexivity | contradiction].
Qed.

Lemma row_refraction_ratio (self : Dielectric.t) (ff : mask N) (ratio : column N)
    (i : Fin.t N) :
  Dielectric.refraction_ratio self ff = Some ratio ->
  row ratio i = if row ff i then 1 / Dielectric.refraction_index self
                else Dielectric.refraction_index self.
Proof.
  intro H. destruct (Req_dec_T (Dielectric.refraction_index self) 0) as [H0 | H0].
  - rewrite refraction_ratio_none in H by exact H0. discriminate.
  - rewrite refraction_ratio_some in H by exact H0. injection H as <-.
    now rewrite row_where, !row_const.
Qed.

(** With a ratio at hand [scatter] returns, and its result is this one. *)
Lemma scatter_some (self : Dielectric.t) (r_in : rays N) (hit : HitRecord N)
    (random_numbers ratio : column N) :
  Dielectric.refraction_ratio self (front_face hit) = Some ratio ->
  let u := Dielectric.unit_direction r_in in
  let c := Dielectric.cos_theta u (normal hit) in
  let decision :=
    Dielectric.should_reflect
      (Dielectric.cannot_refract ratio (Dielectric.sin_theta c))
      (reflectance c ratio) random_numbers in
  Dielectric.scatter self r_in hit random_numbers
  = Some (mkResult (Vector.const true N) (Vector.const vones N)
            (stack (point hit)
               (where_ decision (reflect u (normal hit)) (refract u (normal hit) ratio)))).
Proof.
  intro H. unfold Dielectric.scatter. rewrite H. reflexivity.
Qed.

(** With index zero the division raises and nothing is returned. *)
Lemma scatter_none (self : Dielectric.t) (r_in : rays N) (hit : HitRecord N)
    (random_numbers : column N) :
  Dielectric.refraction_index self = 0 ->
  Dielectric.scatter self r_in hit random_numbers = None.
Proof.
  intro H. unfold Dielectric.scatter.
  now rewrite (refraction_ratio_none self (front_face hit) H).
Qed.

End DielectricRows.

(** C8: for every batch and every random draw [Dielectric.scatter] (of a
    material whose index is not zero, so that the ratio can be formed)
    returns a mask that is true on every element and the attenuation
    [(1, 1, 1)] on every element. *)
Theorem dielectric_mask_and_attenuation :
  forall (self : Dielectric.t) (N : nat) (r_in : rays N) (hit_record : HitRecord N)
         (random_numbers : column N),
    Dielectric.refraction_index self <> 0 ->
    exists result,
      Dielectric.scatter self r_in hit_record random_numbers = Some result
      /\ (forall i, row (scatter_mask result) i = true)
      /\ (forall i, row (attenuation result) i = mkV 1 1 1).
Proof.
  intros self N r_in hit rnd Hidx.
  pose proof (refraction_ratio_some self (front_face hit) Hidx) as Hr.
  eexists. split.
  - apply (scatter_some self r_in hit rnd _ Hr).
  - split; intro i; simpl; apply row_const.
Qed.

Lemma dielectric_mask_and_attenuation_witness :
  Dielectric.refraction_index (Dielectric.mk 1.5) <> 0
  /\ exists result,
      Dielectric.scatter (Dielectric.mk 1.5) (single (vzero, mkV 1 (-1) 0))
        (mkHit (single vzero) (single (mkV 0 1 0)) (single true)) (single 0.5)
      = Some result
      /\ (forall i, row (scatter_mask result) i = true)
      /\ (forall i, row (attenuation result) i = mkV 1 1 1).
Proof.
  assert (H : Dielectric.refraction_index (Dielectric.mk 1.5) <> 0)
    by (simpl; lra).
  split; [exact H|].
  exact (dielectric_mask_and_attenuation (Dielectric.mk 1.5) 1
           (single (vzero, mkV 1 (-1) 0))
           (mkHit (single vzero) (single (mkV 0 1 0)) (single true))
           (single 0.5) H).
Defined.

(** C1: on every element where the refraction ratio times [sin_theta]
    exceeds 1, the new direction returned by [Dielectric.scatter] is
    [reflect(unit incoming direction, normal)], whatever the random draw. *)
Theorem dielectric_total_internal_reflection :
  forall (self : Dielectric.t) (N : nat) (r_in : rays N) (hit_record : HitRecord N)
         (refraction_ratio : column N) (i : Fin.t N),
    Dielectric.refraction_ratio self (front_face hit_record) = Some refraction_ratio ->
    let unit_direction := Dielectric.unit_direction r_in in
    let sin_theta :=
      Dielectric.sin_theta (Dielectric.cos_theta unit_direction (normal hit_record)) in
    row refraction_ratio i * row sin_theta i > 1 ->
    forall random_numbers : column N,
    exists result,
      Dielectric.scatter self r_in hit_record random_numbers = Some result
      /\ snd (row (new_rays result) i)
         = row (reflect unit_direction (normal hit_record)) i.
Proof.
  intros self N r_in hit ratio i Hr u s Htir rnd.
  eexists. split.
  - apply (scatter_some self r_in hit rnd ratio Hr).
  - simpl. rewrite row_stack. simpl. rewrite row_where, row_should_reflect.
    rewrite row_cannot_refract. fold u. fold s.
    apply Rgtb_true in Htir. rewrite Htir. reflexivity.
Qed.

Lemma dielectric_total_internal_reflection_witness :
  let self := Dielectric.mk 1.5 in
  let r_in := single (vzero, mkV 1 0 0) in
  let hit := mkHit (single vzero) (single (mkV 0 1 0)) (single false) in
  Dielectric.refraction_ratio self (front_face hit) = Some (single 1.5)
  /\ row (single 1.5) Fin.F1
       * row (Dielectric.sin_theta
                (Dielectric.cos_theta (Dielectric.unit_direction r_in) (normal hit)))
           Fin.F1 > 1
  /\ exists result,
       Dielectric.scatter self r_in hit (single 0.99) = Some result
       /\ snd (row (new_rays result) Fin.F1)
          = row (reflect (Dielectric.unit_direction r_in) (normal hit)) Fin.F1.
Proof.
  intros self r_in hit.
  assert (Hr : Dielectric.refraction_ratio self (front_face hit) = Some (single 1.5)).
  { unfold self. rewrite refraction_ratio_some by (simpl; lra). reflexivity. }
  assert (Ht : row (single 1.5) Fin.F1
               * row (Dielectric.sin_theta
                        (Dielectric.cos_theta (Dielectric.unit_direction r_in)
                           (normal hit))) Fin.F1 > 1).
  { rewrite row_sin_theta, row_cos_theta, row_unit_direction.
    change (snd (row r_in Fin.F1)) with (mkV 1 0 0).
    change (row (normal hit) Fin.F1) with (mkV 0 1 0).
    rewrite (F_normalize_row_of_unit _ norm_e1), dot_e1_e2.
    rewrite Rmin_left by lra. rewrite sin_of_cos_0, row_single. lra. }
  split; [exact Hr|]. split; [exact Ht|].
  exact (dielectric_total_internal_reflection self 1 r_in hit (single 1.5) Fin.F1
           Hr Ht (single 0.99)).
Defined.

(** Cauchy-Schwarz for two unit rows. *)
Lemma unit_dot_le_1 (u n : vec3) :
  dot u u = 1 -> dot n n = 1 -> dot (vneg u) n <= 1.
Proof.
  intros Hu Hn. set (c := dot (vneg u) n).
  pose proof (r_perp_sqr u n 1 c Hu Hn eq_refl) as Hp.
  pose proof (dot_self_nonneg (vscale 1 (vadd u (vscale c n)))) as H0.
  rewrite Hp in H0. nra.
Qed.

(** At ratio 1 a unit direction meeting a unit normal under a non-negative
    cosine is refracted into itself. *)
Lemma refract_row_ratio_1 (u n : vec3) :
  norm u = 1 -> norm n = 1 -> 0 <= dot (vneg u) n ->
  refract_row u n 1 = u.
Proof.
  intros Hu Hn Hc. apply unit_dot in Hu. apply unit_dot in Hn.
  pose proof (unit_dot_le_1 u n Hu Hn) as Hle.
  unfold refract_row. rewrite vsum_vmul, vsum_vpow2.
  rewrite Rmin_left by exact Hle.
  set (c := dot (vneg u) n) in *.
  rewrite (r_perp_sqr u n 1 c Hu Hn eq_refl).
  replace (1 - 1 ^ 2 * (1 - c ^ 2)) with (c * c) by ring.
  rewrite Rabs_right by nra. rewrite sqrt_square by exact Hc.
  apply vec3_eq; simpl; ring.
Qed.

(** C5, amended: for [Dielectric] with index 1, on every element with
    [front_face] true, a unit normal, a non-negative incidence cosine and an
    incoming direction at least [1e-12] long, the ratio is 1 and the
    direction computed by [refract] is the normalised incoming direction; it
    is the new direction returned by [scatter] whenever the element is not
    chosen for reflection. *)
Theorem dielectric_index_one_undeviated :
  forall (self : Dielectric.t) (N : nat) (r_in : rays N) (hit_record : HitRecord N)
         (i : Fin.t N),
    Dielectric.refraction_index self = 1 ->
    row (front_face hit_record) i = true ->
    norm (row (normal hit_record) i) = 1 ->
    let unit_direction := Dielectric.unit_direction r_in in
    let cos_theta := Dielectric.cos_theta unit_direction (normal hit_record) in
    0 <= row cos_theta i ->
    1e-12 <= norm (snd (row r_in i)) ->
    exists refraction_ratio,
      Dielectric.refraction_ratio self (front_face hit_record) = Some refraction_ratio
      /\ row refraction_ratio i = 1
      /\ row (refract unit_direction (normal hit_record) refraction_ratio) i
         = row unit_direction i
      /\ forall random_numbers : column N,
         exists result,
           Dielectric.scatter self r_in hit_record random_numbers = Some result
           /\ (row (Dielectric.should_reflect
                      (Dielectric.cannot_refract refraction_ratio
                         (Dielectric.sin_theta cos_theta))
                      (reflectance cos_theta refraction_ratio) random_numbers) i = false ->
               snd (row (new_rays result) i) = row unit_direction i).
Proof.
  intros self N r_in hit i Hidx Hff Hn u c Hcos Hlen.
  assert (Hnz : Dielectric.refraction_index self <> 0) by (rewrite Hidx; lra).
  pose proof (refraction_ratio_some self (front_face hit) Hnz) as Hr.
  set (ratio := where_ _ _ _) in Hr.
  assert (Hri : row ratio i = 1).
  { rewrite (row_refraction_ratio self _ ratio i Hr), Hff, Hidx. field. }
  assert (Hu : norm (row u i) = 1).
  { unfold u. rewrite row_unit_direction. apply F_normalize_row_unit. exact Hlen. }
  assert (Hc : 0 <= dot (vneg (row u i)) (row (normal hit) i)).
  { unfold c in Hcos. rewrite row_cos_theta in Hcos.
    revert Hcos. unfold Rmin. destruct (Rle_dec _ 1); lra. }
  assert (Hrefr : row (refract u (normal hit) ratio) i = row u i).
  { rewrite row_refract, Hri. now apply refract_row_ratio_1. }
  exists ratio. split; [exact Hr|]. split; [exact Hri|]. split; [exact Hrefr|].
  intro rnd. eexists. split.
  - apply (scatter_some self r_in hit rnd ratio Hr).
  - intro Hdec. simpl. rewrite row_stack. simpl. rewrite row_where.
    fold u. fold c. rewrite Hdec. exact Hrefr.
Qed.

Lemma norm_neg_e2 : norm (mkV 0 (-1) 0) = 1.
Proof. apply norm_of_sqr; [lra | unfold dot; simpl; ring]. Qed.

Lemma norm_neg_e1 : norm (mkV (-1) 0 0) = 1.
Proof. apply norm_of_sqr; [lra | unfold dot; simpl; ring]. Qed.

Lemma dielectric_index_one_undeviated_witness :
  let self := Dielectric.mk 1 in
  let r_in := single (vzero, mkV 0 (-1) 0) in
  let hit := mkHit (single vzero) (single (mkV 0 1 0)) (single true) in
  let unit_direction := Dielectric.unit_direction r_in in
  Dielectric.refraction_index self = 1
  /\ row (front_face hit) Fin.F1 = true
  /\ norm (row (normal hit) Fin.F1) = 1
  /\ 0 <= row (Dielectric.cos_theta unit_direction (normal hit)) Fin.F1
  /\ 1e-12 <= norm (snd (row r_in Fin.F1))
  /\ exists refraction_ratio,
       Dielectric.refraction_ratio self (front_face hit) = Some refraction_ratio
       /\ row refraction_ratio Fin.F1 = 1
       /\ row (refract unit_direction (normal hit) refraction_ratio) Fin.F1
          = row unit_direction Fin.F1.
Proof.
  intros self r_in hit u.
  assert (H1 : Dielectric.refraction_index self = 1) by reflexivity.
  assert (H2 : row (front_face hit) Fin.F1 = true) by reflexivity.
  assert (H3 : norm (row (normal hit) Fin.F1) = 1) by exact norm_e2.
  assert (H4 : 0 <= row (Dielectric.cos_theta u (normal hit)) Fin.F1).
  { unfold u. rewrite row_cos_theta, row_unit_direction.
    change (snd (row r_in Fin.F1)) with (mkV 0 (-1) 0).
    change (row (normal hit) Fin.F1) with (mkV 0 1 0).
    rewrite (F_normalize_row_of_unit _ norm_neg_e2).
    unfold dot, vneg. simpl. unfold Rmin. destruct (Rle_dec _ 1); lra. }
  assert (H5 : 1e-12 <= norm (snd (row r_in Fin.F1))).
  { change (snd (row r_in Fin.F1)) with (mkV 0 (-1) 0). rewrite norm_neg_e2. lra. }
  repeat (split; [assumption|]).
  destruct (dielectric_index_one_undeviated self 1 r_in hit Fin.F1 H1 H2 H3 H4 H5)
    as (ratio & Hr & Hone & Hsame & _).
  exists ratio. split; [exact Hr|]. split; [exact Hone | exact Hsame].
Defined.

(** When [uv + cos_theta * n] vanishes, [refract] returns the reversed
    normal. *)
Lemma refract_row_no_perp (u n : vec3) (eta : R) :
  vadd u (vscale (Rmin (dot (vneg u) n) 1) n) = vzero ->
  refract_row u n eta = vneg n.
Proof.
  intro H. unfold refract_row. rewrite vsum_vmul, H.
  replace (vscale eta vzero) with vzero
    by (unfold vzero, vscale; apply vec3_eq; simpl; ring).
  replace (1 - vsum (vpow2 vzero)) with 1
    by (unfold vzero, vpow2, vsum; simpl; ring).
  rewrite Rabs_R1, sqrt_1.
  unfold vzero, vadd, vscale, vneg. apply vec3_eq; simpl; ring.
Qed.

(** C5 as stated fails: with index 1, [front_face] true, the unit normal
    [(-1,0,0)] and the incoming direction [(1e-13, 0, 0)], the normalised
    incoming direction is [(0.1, 0, 0)], the incidence cosine is 0.1, and
    [refract] with ratio 1 returns [(1, 0, 0)]. *)
Lemma dielectric_short_direction_deviated :
  let self := Dielectric.mk 1 in
  let r_in := single (vzero, mkV 1e-13 0 0) in
  let hit := mkHit (single vzero) (single (mkV (-1) 0 0)) (single true) in
  let unit_direction := Dielectric.unit_direction r_in in
  Dielectric.refraction_index self = 1
  /\ row (front_face hit) Fin.F1 = true
  /\ norm (row (normal hit) Fin.F1) = 1
  /\ 0 <= row (Dielectric.cos_theta unit_direction (normal hit)) Fin.F1
  /\ Dielectric.refraction_ratio self (front_face hit) = Some (single 1)
  /\ row unit_direction Fin.F1 = mkV 0.1 0 0
  /\ row (refract unit_direction (normal hit) (single 1)) Fin.F1 = mkV 1 0 0
  /\ row (refract unit_direction (normal hit) (single 1)) Fin.F1
     <> row unit_direction Fin.F1.
Proof.
  intros self r_in hit u.
  assert (Hu : row u Fin.F1 = mkV 0.1 0 0).
  { unfold u. rewrite row_unit_direction. exact F_normalize_row_short. }
  assert (Hd : dot (vneg (mkV 0.1 0 0)) (mkV (-1) 0 0) = 0.1)
    by (unfold dot, vneg; simpl; lra).
  assert (Hc : 0 <= row (Dielectric.cos_theta u (normal hit)) Fin.F1).
  { rewrite row_cos_theta, Hu.
    change (row (normal hit) Fin.F1) with (mkV (-1) 0 0).
    rewrite Hd, Rmin_left; lra. }
  assert (Hr : Dielectric.refraction_ratio self (front_face hit) = Some (single 1)).
  { unfold self. rewrite refraction_ratio_some by (simpl; lra). simpl.
    replace (1 / 1) with 1 by field. reflexivity. }
  assert (Hf : row (refract u (normal hit) (single 1)) Fin.F1 = mkV 1 0 0).
  { rewrite row_refract, Hu, row_single.
    change (row (normal hit) Fin.F1) with (mkV (-1) 0 0).
    rewrite refract_row_no_perp.
    - unfold vneg. apply vec3_eq; simpl; lra.
    - rewrite Hd, Rmin_left by lra.
      unfold vadd, vscale, vzero. apply vec3_eq; simpl; lra. }
  split; [reflexivity|]. split; [reflexivity|]. split; [exact norm_neg_e1|].
  split; [exact Hc|]. split; [exact Hr|]. split; [exact Hu|]. split; [exact Hf|].
  rewrite Hf, Hu. intro H. apply (f_equal vx) in H. simpl in H. lra.
Qed.

(** * Further properties of the primitives and of the materials *)

(** ** [reflect] *)

Lemma reflect_row_involutive (v n : vec3) :
  dot n n = 1 -> reflect_row (reflect_row v n) n = v.
Proof.
  intro Hn. unfold reflect_row at 1.
  rewrite vsum_vmul, (dot_reflect_row v n Hn).
  unfold reflect_row. rewrite vsum_vmul.
  apply vec3_eq; simpl; ring.
Qed.

Lemma norm_reflect_row (v n : vec3) :
  dot n n = 1 -> norm (reflect_row v n) = norm v.
Proof.
  intro Hn. unfold norm. rewrite !vsum_vmul.
  now rewrite dot_reflect_row_self.
Qed.

(** X1: reflecting twice about unit normals gives the batch back. *)
Theorem reflect_twice :
  forall (N : nat) (v n : tensor N),
    (forall i, norm (row n i) = 1) ->
    reflect (reflect v n) n = v.
Proof.
  intros N v n Hn. apply batch_ext. intro i.
  rewrite !row_reflect. apply reflect_row_involutive, unit_dot, Hn.
Qed.

Lemma single_unit_e2 : forall i, norm (row (single (mkV 0 1 0)) i) = 1.
Proof. intro i. rewrite row_single. exact norm_e2. Qed.

Lemma reflect_twice_witness :
  (forall i, norm (row (single (mkV 0 1 0)) i) = 1)
  /\ reflect (reflect (single (mkV 1 (-1) 0)) (single (mkV 0 1 0))) (single (mkV 0 1 0))
     = single (mkV 1 (-1) 0).
Proof.
  split; [exact single_unit_e2|].
  apply (reflect_twice 1 (single (mkV 1 (-1) 0)) (single (mkV 0 1 0))).
  exact single_unit_e2.
Defined.

(** X2: about a unit normal [reflect] keeps the length of every row. *)
Theorem reflect_keeps_length :
  forall (N : nat) (v n : tensor N) (i : Fin.t N),
    norm (row n i) = 1 ->
    norm (row (reflect v n) i) = norm (row v i).
Proof.
  intros N v n i Hn. rewrite row_reflect.
  apply norm_reflect_row, unit_dot, Hn.
Qed.

Lemma reflect_keeps_length_witness :
  norm (row (single (mkV 0 1 0)) Fin.F1) = 1
  /\ norm (row (reflect (single (mkV 3 (-4) 0)) (single (mkV 0 1 0))) Fin.F1)
     = norm (row (single (mkV 3 (-4) 0)) Fin.F1).
Proof.
  split; [exact norm_e2|].
  apply (reflect_keeps_length 1 (single (mkV 3 (-4) 0)) (single (mkV 0 1 0)) Fin.F1).
  exact norm_e2.
Defined.

(** ** [refract] *)

(** The component of the refracted row along the normal, for an unclamped
    cosine. *)
Lemma dot_refract_row (u n : vec3) (eta : R) :
  dot n n = 1 -> dot (vneg u) n <= 1 ->
  dot (refract_row u n eta) n
  = - sqrt (Rabs (1 - dot (vscale eta (vadd u (vscale (dot (vneg u) n) n)))
                         (vscale eta (vadd u (vscale (dot (vneg u) n) n))))).
Proof.
  intros Hn Hc. unfold refract_row. rewrite vsum_vmul, vsum_vpow2.
  rewrite Rmin_left by exact Hc.
  rewrite dot_vadd_l, (r_perp_orth u n eta _ Hn eq_refl), dot_vscale_l, Hn.
  ring.
Qed.

Lemma perp_refract_row (u n : vec3) (eta : R) :
  dot n n = 1 -> dot (vneg u) n <= 1 ->
  perp (refract_row u n eta) n = vscale eta (perp u n).
Proof.
  intros Hn Hc. unfold perp, along.
  rewrite (dot_refract_row u n eta Hn Hc).
  unfold refract_row. rewrite vsum_vmul, vsum_vpow2.
  rewrite Rmin_left by exact Hc.
  set (k := sqrt _). rewrite dot_vneg_l.
  apply vec3_eq; simpl; ring.
Qed.

(** X3: Snell's law in vector form.  For unit [uv] and [n] the part of the
    refracted row perpendicular to the normal is [eta_ratio] times that of
    [uv], and its component along the normal is
    [-sqrt(|1 - eta_ratio^2 * (1 - dot(uv,n)^2)|)], never positive. *)
Theorem refract_snell :
  forall (N : nat) (uv n : tensor N) (eta_ratio : column N) (i : Fin.t N),
    norm (row uv i) = 1 ->
    norm (row n i) = 1 ->
    perp (row (refract uv n eta_ratio) i) (row n i)
    = vscale (row eta_ratio i) (perp (row uv i) (row n i))
    /\ dot (row (refract uv n eta_ratio) i) (row n i)
       = - sqrt (Rabs (1 - row eta_ratio i ^ 2 * (1 - dot (row uv i) (row n i) ^ 2)))
    /\ dot (row (refract uv n eta_ratio) i) (row n i) <= 0.
Proof.
  intros N uv n eta i Hu Hn. rewrite row_refract.
  apply unit_dot in Hu. apply unit_dot in Hn.
  pose proof (unit_dot_le_1 _ _ Hu Hn) as Hc.
  assert (Hd : dot (refract_row (row uv i) (row n i) (row eta i)) (row n i)
               = - sqrt (Rabs (1 - row eta i ^ 2 * (1 - dot (row uv i) (row n i) ^ 2)))).
  { rewrite (dot_refract_row _ _ _ Hn Hc).
    rewrite (r_perp_sqr _ _ (row eta i) _ Hu Hn eq_refl), dot_vneg_l.
    do 3 f_equal. ring. }
  split; [now apply perp_refract_row|]. split; [exact Hd|].
  rewrite Hd. pose proof (sqrt_pos (Rabs (1 - row eta i ^ 2 * (1 - dot (row uv i) (row n i) ^ 2)))).
  lra.
Qed.

Lemma refract_snell_witness :
  norm (row (single (mkV 1 0 0)) Fin.F1) = 1
  /\ norm (row (single (mkV 0 1 0)) Fin.F1) = 1
  /\ dot (row (refract (single (mkV 1 0 0)) (single (mkV 0 1 0)) (single 0.5)) Fin.F1)
         (row (single (mkV 0 1 0)) Fin.F1) <= 0.
Proof.
  split; [exact norm_e1|]. split; [exact norm_e2|].
  apply (refract_snell 1 (single (mkV 1 0 0)) (single (mkV 0 1 0)) (single 0.5) Fin.F1).
  - exact norm_e1.
  - exact norm_e2.
Defined.

(** X4: a ray that meets the surface head-on ([uv = -n], [n] of unit
    length) is not bent, whatever the ratio. *)
Theorem refract_head_on :
  forall (N : nat) (uv n : tensor N) (eta_ratio : column N) (i : Fin.t N),
    norm (row n i) = 1 ->
    row uv i = vneg (row n i) ->
    row (refract uv n eta_ratio) i = row uv i.
Proof.
  intros N uv n eta i Hn Hu. rewrite row_refract, Hu.
  apply unit_dot in Hn.
  assert (Hc : dot (vneg (vneg (row n i))) (row n i) = 1)
    by (rewrite !dot_vneg_l, Hn; ring).
  apply refract_row_no_perp.
  rewrite Hc, Rmin_left by lra.
  unfold vadd, vscale, vneg, vzero. apply vec3_eq; simpl; ring.
Qed.

Lemma refract_head_on_witness :
  norm (row (single (mkV 0 1 0)) Fin.F1) = 1
  /\ row (refract (single (mkV 0 (-1) 0)) (single (mkV 0 1 0)) (single 1.5)) Fin.F1
     = row (single (mkV 0 (-1) 0)) Fin.F1.
Proof.
  split; [exact norm_e2|].
  apply (refract_head_on 1 (single (mkV 0 (-1) 0)) (single (mkV 0 1 0)) (single 1.5) Fin.F1).
  - exact norm_e2.
  - rewrite !row_single. unfold vneg. apply vec3_eq; simpl; ring.
Defined.

(** ** [reflectance] *)

Lemma reflectance_row_bounds (c x : R) :
  0 < x -> 0 <= c <= 1 ->
  ((1 - x) / (1 + x)) ^ 2 <= reflectance_row c x <= 1.
Proof.
  intros Hx Hc. unfold reflectance_row.
  pose proof (r0_le_1 x Hx) as Hr0.
  assert (H0 : 0 <= (1 - c) ^ 5) by (apply pow_le; lra).
  assert (H1 : (1 - c) ^ 5 <= 1).
  { replace 1 with (1 ^ 5) at 2 by ring. apply pow_incr. lra. }
  split; nra.
Qed.

(** X5: for a positive index and a cosine in [[0, 1]] the Schlick value is
    a probability no smaller than [r0]; at cosine 0 it is 1. *)
Theorem reflectance_is_probability :
  forall (N : nat) (cosine ref_idx : column N) (i : Fin.t N),
    0 < row ref_idx i ->
    0 <= row cosine i <= 1 ->
    0 <= ((1 - row ref_idx i) / (1 + row ref_idx i)) ^ 2
      <= row (reflectance cosine ref_idx) i
    /\ row (reflectance cosine ref_idx) i <= 1
    /\ (row cosine i = 0 -> row (reflectance cosine ref_idx) i = 1).
Proof.
  intros N c x i Hx Hc. rewrite row_reflectance.
  pose proof (reflectance_row_bounds _ _ Hx Hc) as [Hlo Hhi].
  repeat split; try assumption.
  - apply pow2_ge_0.
  - intro H0. rewrite H0. unfold reflectance_row. ring.
Qed.

Lemma reflectance_is_probability_witness :
  0 < row (single 1.5) Fin.F1
  /\ 0 <= row (single 0) Fin.F1 <= 1
  /\ row (reflectance (single 0) (single 1.5)) Fin.F1 = 1.
Proof.
  assert (Hx : 0 < row (single 1.5) Fin.F1) by (rewrite row_single; lra).
  assert (Hc : 0 <= row (single 0) Fin.F1 <= 1) by (rewrite row_single; lra).
  split; [exact Hx|]. split; [exact Hc|].
  apply (reflectance_is_probability 1 (single 0) (single 1.5) Fin.F1 Hx Hc).
  apply row_single.
Defined.

(** X6: the Schlick value is the same for an index and for its inverse:
    entering and leaving the medium under the same cosine reflect with the
    same probability. *)
Theorem reflectance_inverse_index :
  forall (N : nat) (cosine ref_idx inverse_idx : column N) (i : Fin.t N),
    0 < row ref_idx i ->
    row inverse_idx i = 1 / row ref_idx i ->
    row (reflectance cosine inverse_idx) i = row (reflectance cosine ref_idx) i.
Proof.
  intros N c x y i Hx Hy. rewrite !row_reflectance, Hy.
  unfold reflectance_row.
  replace (((1 - 1 / row x i) / (1 + 1 / row x i)) ^ 2)
    with (((1 - row x i) / (1 + row x i)) ^ 2) by (field; lra).
  reflexivity.
Qed.

Lemma reflectance_inverse_index_witness :
  0 < row (single 2) Fin.F1
  /\ row (reflectance (single 0.3) (single 0.5)) Fin.F1
     = row (reflectance (single 0.3) (single 2)) Fin.F1.
Proof.
  assert (Hx : 0 < row (single 2) Fin.F1) by (rewrite row_single; lra).
  split; [exact Hx|].
  apply (reflectance_inverse_index 1 (single 0.3) (single 2) (single 0.5) Fin.F1 Hx).
  rewrite !row_single. lra.
Defined.

(** ** Lambertian: the hemisphere of the normal *)

Lemma dot_F_normalize_row_pos (v n : vec3) :
  0 < dot (F_normalize_row v) n <-> 0 < dot v n.
Proof.
  pose proof (dot_F_normalize_row_sign v n) as H. split; intro; lra.
Qed.

(** For unit rows, [dot(n + u, n)] is half the squared length of [n + u]. *)
Lemma dot_sum_unit (n u : vec3) :
  dot n n = 1 -> dot u u = 1 ->
  2 * dot (vadd n u) n = dot (vadd n u) (vadd n u).
Proof.
  intros Hn Hu. rewrite !dot_vadd_l, !dot_vadd_r, Hn, Hu, (dot_comm u n). ring.
Qed.

(** X7: for unit normals and unit samples the direction returned by
    [Lambertian.scatter] lies strictly on the side of the normal. *)
Theorem lambertian_direction_in_hemisphere :
  forall (self : Lambertian.t) (N : nat) (r_in : rays N) (hit_record : HitRecord N)
         (random_unit_vector : tensor N) (i : Fin.t N),
    norm (row (normal hit_record) i) = 1 ->
    norm (row random_unit_vector i) = 1 ->
    0 < dot (snd (row (new_rays
                         (Lambertian.scatter self r_in hit_record random_unit_vector)) i))
            (row (normal hit_record) i).
Proof.
  intros self N r_in hit u i Hn Hu.
  rewrite row_lambertian_direction.
  destruct (Rltb _ _) eqn:Hz.
  - rewrite (F_normalize_row_of_unit _ Hn), (unit_dot _ Hn). lra.
  - apply dot_F_normalize_row_pos. apply Rltb_false in Hz.
    pose proof (dot_sum_unit _ _ (unit_dot _ Hn) (unit_dot _ Hu)) as Hs.
    pose proof (norm_sqr (vadd (row (normal hit) i) (row u i))) as Hq.
    unfold Lambertian.zero_threshold in Hz. nra.
Qed.

Lemma lambertian_direction_in_hemisphere_witness :
  let hit := mkHit (single vzero) (single (mkV 0 1 0)) (single true) in
  norm (row (normal hit) Fin.F1) = 1
  /\ norm (row (single (mkV 1 0 0)) Fin.F1) = 1
  /\ 0 < dot (snd (row (new_rays
                          (Lambertian.scatter (Lambertian.mk (mkV 0.5 0.5 0.5))
                             (single (vzero, mkV 0 (-1) 0)) hit (single (mkV 1 0 0))))
                     Fin.F1))
             (row (normal hit) Fin.F1).
Proof.
  intro hit.
  assert (Hn : norm (row (normal hit) Fin.F1) = 1) by exact norm_e2.
  assert (Hu : norm (row (single (mkV 1 0 0)) Fin.F1) = 1) by exact norm_e1.
  split; [exact Hn|]. split; [exact Hu|].
  exact (lambertian_direction_in_hemisphere (Lambertian.mk (mkV 0.5 0.5 0.5)) 1
           (single (vzero, mkV 0 (-1) 0)) hit (single (mkV 1 0 0)) Fin.F1 Hn Hu).
Defined.

(** ** Metal: absorption and the length of the new direction *)

(** Two unit rows have a dot product within [[-1, 1]]. *)
Lemma unit_dot_bounds (a b : vec3) :
  dot a a = 1 -> dot b b = 1 -> -1 <= dot a b <= 1.
Proof.
  intros Ha Hb. split.
  - pose proof (unit_dot_le_1 a b Ha Hb) as H. rewrite dot_vneg_l in H. lra.
  - assert (Hna : dot (vneg a) (vneg a) = 1)
      by (rewrite dot_vneg_l, dot_comm, dot_vneg_l, Ha; ring).
    pose proof (unit_dot_le_1 (vneg a) b Hna Hb) as H.
    rewrite !dot_vneg_l in H. lra.
Qed.

(** The side of the surface the perturbed reflection points to. *)
Lemma dot_perturbed (u n r : vec3) (f : R) :
  dot n n = 1 ->
  dot (vadd (reflect_row u n) (vscale f r)) n = f * dot r n - dot u n.
Proof.
  intro Hn. rewrite dot_vadd_l, dot_vscale_l, (dot_reflect_row u n Hn). ring.
Qed.

(** X8: with a unit normal, [Metal.scatter] keeps element [i] exactly when
    [fuzz * dot(sample, n)] exceeds [dot(unit incoming direction, n)]; the
    final normalisation has no part in the decision. *)
Theorem metal_mask_decision :
  forall (self : Metal.t) (N : nat) (r_in : rays N) (hit_record : HitRecord N)
         (random_unit_vector : tensor N) (i : Fin.t N),
    norm (row (normal hit_record) i) = 1 ->
    (row (scatter_mask (Metal.scatter self r_in hit_record random_unit_vector)) i = true
     <-> Metal.fuzz self * dot (row random_unit_vector i) (row (normal hit_record) i)
         > dot (F_normalize_row (snd (row r_in i))) (row (normal hit_record) i)).
Proof.
  intros self N r_in hit u i Hn. apply unit_dot in Hn.
  rewrite row_metal_mask, row_metal_direction, Rgtb_true.
  unfold Rgt. rewrite dot_F_normalize_row_pos, (dot_perturbed _ _ _ _ Hn).
  lra.
Qed.

Lemma metal_mask_decision_witness :
  let hit := mkHit (single vzero) (single (mkV 0 1 0)) (single true) in
  let self := Metal.init (mkV 0.8 0.8 0.8) 0.3 in
  norm (row (normal hit) Fin.F1) = 1
  /\ (row (scatter_mask
             (Metal.scatter self (single (vzero, mkV 0 (-1) 0)) hit (single (mkV 1 0 0))))
          Fin.F1 = true
      <-> Metal.fuzz self * dot (row (single (mkV 1 0 0)) Fin.F1) (row (normal hit) Fin.F1)
          > dot (F_normalize_row (snd (row (single (vzero, mkV 0 (-1) 0)) Fin.F1)))
                (row (normal hit) Fin.F1)).
Proof.
  intros hit self.
  assert (Hn : norm (row (normal hit) Fin.F1) = 1) by exact norm_e2.
  split; [exact Hn|].
  exact (metal_mask_decision self 1 (single (vzero, mkV 0 (-1) 0)) hit
           (single (mkV 1 0 0)) Fin.F1 Hn).
Defined.

(** X9: with a unit normal and a unit sample, an element whose incidence
    cosine [-dot(unit incoming direction, n)] exceeds a non-negative fuzz is
    never absorbed. *)
Theorem metal_steep_ray_scatters :
  forall (self : Metal.t) (N : nat) (r_in : rays N) (hit_record : HitRecord N)
         (random_unit_vector : tensor N) (i : Fin.t N),
    norm (row (normal hit_record) i) = 1 ->
    norm (row random_unit_vector i) = 1 ->
    0 <= Metal.fuzz self ->
    Metal.fuzz self
      < - dot (F_normalize_row (snd (row r_in i))) (row (normal hit_record) i) ->
    row (scatter_mask (Metal.scatter self r_in hit_record random_unit_vector)) i = true.
Proof.
  intros self N r_in hit u i Hn Hu Hf Hcos.
  apply unit_dot in Hn. apply unit_dot in Hu.
  rewrite row_metal_mask, row_metal_direction, Rgtb_true.
  unfold Rgt. rewrite dot_F_normalize_row_pos, (dot_perturbed _ _ _ _ Hn).
  pose proof (unit_dot_bounds _ _ Hu Hn) as Hb. nra.
Qed.

Lemma metal_steep_ray_scatters_witness :
  let hit := mkHit (single vzero) (single (mkV 0 1 0)) (single true) in
  let self := Metal.mk (mkV 0.8 0.8 0.8) 0.3 in
  let r_in := single (vzero, mkV 0 (-1) 0) in
  norm (row (normal hit) Fin.F1) = 1
  /\ norm (row (single (mkV 1 0 0)) Fin.F1) = 1
  /\ row (scatter_mask (Metal.scatter self r_in hit (single (mkV 1 0 0)))) Fin.F1 = true.
Proof.
  intros hit self r_in.
  assert (Hn : norm (row (normal hit) Fin.F1) = 1) by exact norm_e2.
  assert (Hu : norm (row (single (mkV 1 0 0)) Fin.F1) = 1) by exact norm_e1.
  split; [exact Hn|]. split; [exact Hu|].
  apply (metal_steep_ray_scatters self 1 r_in hit (single (mkV 1 0 0)) Fin.F1 Hn Hu).
  - simpl. lra.
  - change (snd (row r_in Fin.F1)) with (mkV 0 (-1) 0).
    change (row (normal hit) Fin.F1) with (mkV 0 1 0).
    rewrite (F_normalize_row_of_unit _ norm_neg_e2).
    unfold dot. simpl. lra.
Defined.



(** X11: [Metal.scatter] has no guard for a vanishing direction: with fuzz
    1 and a sample opposite to the mirror reflection, the new direction is
    the zero row; the element is then absorbed. *)
Theorem metal_cancelled_reflection_absorbed :
  forall (self : Metal.t) (N : nat) (r_in : rays N) (hit_record : HitRecord N)
         (random_unit_vector : tensor N) (i : Fin.t N),
    Metal.fuzz self = 1 ->
    row random_unit_vector i
    = vneg (reflect_row (F_normalize_row (snd (row r_in i))) (row (normal hit_record) i)) ->
    let result := Metal.scatter self r_in hit_record random_unit_vector in
    snd (row (new_rays result) i) = vzero
    /\ row (scatter_mask result) i = false.
Proof.
  intros self N r_in hit u i Hf Hu result.
  assert (Hdir : snd (row (new_rays result) i) = vzero).
  { unfold result. rewrite row_metal_direction, Hf, Hu.
    set (m := reflect_row _ _).
    replace (vadd m (vscale 1 (vneg m))) with vzero
      by (unfold vadd, vscale, vneg, vzero; apply vec3_eq; simpl; ring).
    apply F_normalize_row_vzero. }
  split; [exact Hdir|].
  unfold result. rewrite row_metal_mask. fold result. rewrite Hdir.
  apply Rgtb_false. unfold dot, vzero. simpl. lra.
Qed.

Lemma metal_cancelled_reflection_absorbed_witness :
  let hit := mkHit (single vzero) (single (mkV 0 1 0)) (single true) in
  let self := Metal.init (mkV 0.8 0.8 0.8) 1 in
  let r_in := single (vzero, mkV 0 (-1) 0) in
  let sample := single (mkV 0 (-1) 0) in
  Metal.fuzz self = 1
  /\ snd (row (new_rays (Metal.scatter self r_in hit sample)) Fin.F1) = vzero
  /\ row (scatter_mask (Metal.scatter self r_in hit sample)) Fin.F1 = false.
Proof.
  intros hit self r_in sample.
  assert (Hf : Metal.fuzz self = 1).
  { unfold self. rewrite fuzz_init, Rmin_left by lra. apply Rmax_right. lra. }
  split; [exact Hf|].
  apply (metal_cancelled_reflection_absorbed self 1 r_in hit sample Fin.F1 Hf).
  change (snd (row r_in Fin.F1)) with (mkV 0 (-1) 0).
  change (row (normal hit) Fin.F1) with (mkV 0 1 0).
  change (row sample Fin.F1) with (mkV 0 (-1) 0).
  rewrite (F_normalize_row_of_unit _ norm_neg_e2).
  unfold reflect_row, vneg, vsum, vmul, vsub, vscale. apply vec3_eq; simpl; ring.
Defined.

(** ** Dielectric: what is returned, and when nothing is *)

(** The new ray of element [i] in terms of the rows of the inputs. *)
Lemma row_dielectric_ray (self : Dielectric.t) (N : nat) (r_in : rays N)
    (hit : HitRecord N) (rnd : column N) (result : ScatterResult N) (i : Fin.t N) :
  Dielectric.scatter self r_in hit rnd = Some result ->
  let u := F_normalize_row (snd (row r_in i)) in
  let n := row (normal hit) i in
  let c := Rmin (dot (vneg u) n) 1 in
  let eta := if row (front_face hit) i then 1 / Dielectric.refraction_index self
             else Dielectric.refraction_index self in
  row (new_rays result) i
  = (row (point hit) i,
     if orb (Rgtb (eta * sin_of_cos c) 1) (Rgtb (reflectance_row c eta) (row rnd i))
     then reflect_row u n else refract_row u n eta).
Proof.
  intros Hs u n c eta.
  destruct (Dielectric.refraction_ratio self (front_face hit)) as [ratio|] eqn:Hr.
  - rewrite (scatter_some self r_in hit rnd ratio Hr) in Hs.
    injection Hs as <-. simpl.
    rewrite row_stack, row_where, row_should_reflect, row_cannot_refract,
      row_reflectance, row_sin_theta, row_cos_theta, row_reflect, row_refract,
      row_unit_direction.
    rewrite (row_refraction_ratio self _ ratio i Hr). reflexivity.
  - unfold Dielectric.scatter in Hs. rewrite Hr in Hs. discriminate.
Qed.




(** X13: on an element where the ratio times [sin_theta] does not exceed 1
    and the random draw is not below the Schlick value, the new direction
    returned by [Dielectric.scatter] is the row computed by [refract]. *)
Theorem dielectric_refracts :
  forall (self : Dielectric.t) (N : nat) (r_in : rays N) (hit_record : HitRecord N)
         (refraction_ratio random_numbers : column N) (i : Fin.t N),
    Dielectric.refraction_ratio self (front_face hit_record) = Some refraction_ratio ->
    let unit_direction := Dielectric.unit_direction r_in in
    let cos_theta := Dielectric.cos_theta unit_direction (normal hit_record) in
    row refraction_ratio i * row (Dielectric.sin_theta cos_theta) i <= 1 ->
    row (reflectance cos_theta refraction_ratio) i <= row random_numbers i ->
    exists result,
      Dielectric.scatter self r_in hit_record random_numbers = Some result
      /\ snd (row (new_rays result) i)
         = row (refract unit_direction (normal hit_record) refraction_ratio) i.
Proof.
  intros self N r_in hit ratio rnd i Hr u c Htir Hdraw.
  eexists. split.
  - apply (scatter_some self r_in hit rnd ratio Hr).
  - simpl. rewrite row_stack. simpl.
    rewrite row_where, row_should_reflect, row_cannot_refract.
    fold u. fold c.
    apply Rgtb_false in Htir. apply Rgtb_false in Hdraw.
    rewrite Htir, Hdraw. reflexivity.
Qed.

Lemma dielectric_refracts_witness :
  let self := Dielectric.mk 1.5 in
  let r_in := single (vzero, mkV 0 (-1) 0) in
  let hit := mkHit (single vzero) (single (mkV 0 1 0)) (single false) in
  let unit_direction := Dielectric.unit_direction r_in in
  let cos_theta := Dielectric.cos_theta unit_direction (normal hit) in
  Dielectric.refraction_ratio self (front_face hit) = Some (single 1.5)
  /\ row (single 1.5) Fin.F1 * row (Dielectric.sin_theta cos_theta) Fin.F1 <= 1
  /\ row (reflectance cos_theta (single 1.5)) Fin.F1 <= row (single 0.5) Fin.F1
  /\ exists result,
       Dielectric.scatter self r_in hit (single 0.5) = Some result
       /\ snd (row (new_rays result) Fin.F1)
          = row (refract unit_direction (normal hit) (single 1.5)) Fin.F1.
Proof.
  intros self r_in hit u c.
  assert (Hr : Dielectric.refraction_ratio self (front_face hit) = Some (single 1.5)).
  { unfold self. rewrite refraction_ratio_some by (simpl; lra). reflexivity. }
  assert (Hc : row c Fin.F1 = 1).
  { unfold c, u. rewrite row_cos_theta, row_unit_direction.
    change (snd (row r_in Fin.F1)) with (mkV 0 (-1) 0).
    change (row (normal hit) Fin.F1) with (mkV 0 1 0).
    rewrite (F_normalize_row_of_unit _ norm_neg_e2).
    unfold dot, vneg. simpl. rewrite Rmin_left by lra. lra. }
  assert (H1 : row (single 1.5) Fin.F1 * row (Dielectric.sin_theta c) Fin.F1 <= 1).
  { rewrite row_sin_theta, Hc, row_single. unfold sin_of_cos.
    replace (1 - 1 ^ 2) with 0 by ring. rewrite sqrt_0. lra. }
  assert (H2 : row (reflectance c (single 1.5)) Fin.F1 <= row (single 0.5) Fin.F1).
  { rewrite row_reflectance, Hc, !row_single. unfold reflectance_row. lra. }
  split; [exact Hr|]. split; [exact H1|]. split; [exact H2|].
  exact (dielectric_refracts self 1 r_in hit (single 1.5) (single 0.5) Fin.F1 Hr H1 H2).
Defined.

(** X14: [Dielectric.scatter] raises exactly when the index is zero,
    whatever the batch, the empty one included. *)
Theorem dielectric_raises_iff_zero_index :
  forall (self : Dielectric.t) (N : nat) (r_in : rays N) (hit_record : HitRecord N)
         (random_numbers : column N),
    Dielectric.scatter self r_in hit_record random_numbers = None
    <-> Dielectric.refraction_index self = 0.
Proof.
  intros self N r_in hit rnd. split.
  - intro Hs.
    destruct (Req_dec_T (Dielectric.refraction_index self) 0) as [H0 | H0];
      [exact H0|].
    rewrite (scatter_some self r_in hit rnd _
               (refraction_ratio_some self (front_face hit) H0)) in Hs.
    discriminate.
  - apply scatter_none.
Qed.

(** ** Elements of a batch are scattered independently *)

(** X15: an element of the result of [Dielectric.scatter] depends only on
    that element of the inputs: two elements, of batches of any sizes, with
    the same ray direction, hit point, normal, face flag and random draw get
    the same mask entry, attenuation and new ray. *)
Theorem dielectric_elementwise :
  forall (self : Dielectric.t) (N M : nat)
         (r_in : rays N) (hit : HitRecord N) (draws : column N) (i : Fin.t N)
         (r_in' : rays M) (hit' : HitRecord M) (draws' : column M) (j : Fin.t M),
    Dielectric.refraction_index self <> 0 ->
    snd (row r_in i) = snd (row r_in' j) ->
    row (point hit) i = row (point hit') j ->
    row (normal hit) i = row (normal hit') j ->
    row (front_face hit) i = row (front_face hit') j ->
    row draws i = row draws' j ->
    exists result result',
      Dielectric.scatter self r_in hit draws = Some result
      /\ Dielectric.scatter self r_in' hit' draws' = Some result'
      /\ row (scatter_mask result) i = row (scatter_mask result') j
      /\ row (attenuation result) i = row (attenuation result') j
      /\ row (new_rays result) i = row (new_rays result') j.
Proof.
  intros self N M r_in hit draws i r_in' hit' draws' j Hnz Hd Hp Hn Hf Hu.
  pose proof (scatter_some self r_in hit draws _
                (refraction_ratio_some self (front_face hit) Hnz)) as Hs.
  pose proof (scatter_some self r_in' hit' draws' _
                (refraction_ratio_some self (front_face hit') Hnz)) as Hs'.
  eexists. eexists. split; [exact Hs|]. split; [exact Hs'|].
  split; [|split].
  - simpl. now rewrite !row_const.
  - simpl. now rewrite !row_const.
  - rewrite (row_dielectric_ray _ _ _ _ _ _ i Hs).
    rewrite (row_dielectric_ray _ _ _ _ _ _ j Hs').
    cbv zeta. now rewrite Hd, Hp, Hn, Hf, Hu.
Qed.

Lemma dielectric_elementwise_witness :
  let self := Dielectric.mk 1.5 in
  let ray := (vzero, mkV 0 (-1) 0) in
  let r_in := single ray in
  let hit := mkHit (single vzero) (single (mkV 0 1 0)) (single true) in
  let r_in' := Vector.cons _ (vzero, mkV 1 0 0) 1 (single ray) in
  let hit' := mkHit (Vector.cons _ (mkV 5 5 5) 1 (single vzero))
                (Vector.cons _ (mkV 1 0 0) 1 (single (mkV 0 1 0)))
                (Vector.cons _ false 1 (single true)) in
  let draws' := Vector.cons _ 0.9 1 (single 0.5) in
  Dielectric.refraction_index self <> 0
  /\ exists result result',
       Dielectric.scatter self r_in hit (single 0.5) = Some result
       /\ Dielectric.scatter self r_in' hit' draws' = Some result'
       /\ row (new_rays result) Fin.F1 = row (new_rays result') (Fin.FS Fin.F1).
Proof.
  intros self ray r_in hit r_in' hit' draws'.
  assert (Hnz : Dielectric.refraction_index self <> 0) by (simpl; lra).
  split; [exact Hnz|].
  destruct (dielectric_elementwise self 1 2 r_in hit (single 0.5) Fin.F1
              r_in' hit' draws' (Fin.FS Fin.F1) Hnz
              eq_refl eq_refl eq_refl eq_refl eq_refl)
    as (res & res' & H1 & H2 & _ & _ & H3).
  exists res, res'. split; [exact H1|]. split; [exact H2 | exact H3].
Defined.

(** X16: the same for [Metal.scatter], for elements with the same ray
    direction, hit point, normal and sample. *)
Theorem metal_elementwise :
  forall (self : Metal.t) (N M : nat)
         (r_in : rays N) (hit : HitRecord N) (samples : tensor N) (i : Fin.t N)
         (r_in' : rays M) (hit' : HitRecord M) (samples' : tensor M) (j : Fin.t M),
    snd (row r_in i) = snd (row r_in' j) ->
    row (point hit) i = row (point hit') j ->
    row (normal hit) i = row (normal hit') j ->
    row samples i = row samples' j ->
    let result := Metal.scatter self r_in hit samples in
    let result' := Metal.scatter self r_in' hit' samples' in
    row (scatter_mask result) i = row (scatter_mask result') j
    /\ row (attenuation result) i = row (attenuation result') j
    /\ row (new_rays result) i = row (new_rays result') j.
Proof.
  intros self N M r_in hit u i r_in' hit' u' j Hd Hp Hn Hu result result'.
  assert (Hdir : snd (row (new_rays result) i) = snd (row (new_rays result') j)).
  { unfold result, result'. rewrite !row_metal_direction.
    now rewrite Hd, Hn, Hu. }
  split; [|split].
  - unfold result, result'. rewrite !row_metal_mask.
    fold result. fold result'. now rewrite Hdir, Hn.
  - unfold result, result', Metal.scatter. simpl. now rewrite !row_const.
  - rewrite (surjective_pairing (row (new_rays result) i)).
    rewrite (surjective_pairing (row (new_rays result') j)).
    rewrite Hdir. f_equal.
    unfold result, result', Metal.scatter. simpl.
    rewrite !row_stack. simpl. exact Hp.
Qed.

Lemma metal_elementwise_witness :
  let self := Metal.mk (mkV 0.8 0.8 0.8) 0.3 in
  let ray := (vzero, mkV 0 (-1) 0) in
  let hit := mkHit (single vzero) (single (mkV 0 1 0)) (single true) in
  let r_in' := Vector.cons _ (vzero, mkV 1 0 0) 1 (single ray) in
  let hit' := mkHit (Vector.cons _ (mkV 5 5 5) 1 (single vzero))
                (Vector.cons _ (mkV 1 0 0) 1 (single (mkV 0 1 0)))
                (Vector.cons _ false 1 (single true)) in
  let samples' := Vector.cons _ (mkV 0 0 1) 1 (single (mkV 1 0 0)) in
  snd (row (single ray) Fin.F1) = snd (row r_in' (Fin.FS Fin.F1))
  /\ row (new_rays (Metal.scatter self (single ray) hit (single (mkV 1 0 0)))) Fin.F1
     = row (new_rays (Metal.scatter self r_in' hit' samples')) (Fin.FS Fin.F1).
Proof.
  intros self ray hit r_in' hit' samples'.
  split; [reflexivity|].
  apply (metal_elementwise self 1 2 (single ray) hit (single (mkV 1 0 0)) Fin.F1
           r_in' hit' samples' (Fin.FS Fin.F1) eq_refl eq_refl eq_refl eq_refl).
Defined.

(** X17: an element of the result of [Lambertian.scatter] depends only on
    the hit point, the normal and the sample of that element; the incoming
    rays play no part. *)
Theorem lambertian_elementwise :
  forall (self : Lambertian.t) (N M : nat)
         (r_in : rays N) (hit : HitRecord N) (samples : tensor N) (i : Fin.t N)
         (r_in' : rays M) (hit' : HitRecord M) (samples' : tensor M) (j : Fin.t M),
    row (point hit) i = row (point hit') j ->
    row (normal hit) i = row (normal hit') j ->
    row samples i = row samples' j ->
    let result := Lambertian.scatter self r_in hit samples in
    let result' := Lambertian.scatter self r_in' hit' samples' in
    row (scatter_mask result) i = row (scatter_mask result') j
    /\ row (attenuation result) i = row (attenuation result') j
    /\ row (new_rays result) i = row (new_rays result') j.
Proof.
  intros self N M r_in hit u i r_in' hit' u' j Hp Hn Hu result result'.
  split; [|split].
  - unfold result, result', Lambertian.scatter. simpl. now rewrite !row_const.
  - unfold result, result', Lambertian.scatter. simpl. now rewrite !row_const.
  - rewrite (surjective_pairing (row (new_rays result) i)).
    rewrite (surjective_pairing (row (new_rays result') j)).
    unfold result, result'. rewrite !row_lambertian_direction.
    rewrite Hn, Hu. f_equal.
    unfold Lambertian.scatter. simpl. rewrite !row_stack. simpl. exact Hp.
Qed.

Lemma lambertian_elementwise_witness :
  let self := Lambertian.mk (mkV 0.5 0.5 0.5) in
  let hit := mkHit (single vzero) (single (mkV 0 1 0)) (single true) in
  let hit' := mkHit (Vector.cons _ (mkV 5 5 5) 1 (single vzero))
                (Vector.cons _ (mkV 1 0 0) 1 (single (mkV 0 1 0)))
                (Vector.cons _ false 1 (single true)) in
  let r_in' := Vector.cons _ (vzero, mkV 1 0 0) 1 (single (vzero, mkV 0 0 1)) in
  let samples' := Vector.cons _ (mkV 0 0 1) 1 (single (mkV 1 0 0)) in
  row (normal hit) Fin.F1 = row (normal hit') (Fin.FS Fin.F1)
  /\ row (new_rays (Lambertian.scatter self (single (vzero, mkV 0 (-1) 0)) hit
                      (single (mkV 1 0 0)))) Fin.F1
     = row (new_rays (Lambertian.scatter self r_in' hit' samples')) (Fin.FS Fin.F1).
Proof.
  intros self hit hit' r_in' samples'.
  split; [reflexivity|].
  apply (lambertian_elementwise self 1 2 (single (vzero, mkV 0 (-1) 0)) hit
           (single (mkV 1 0 0)) Fin.F1 r_in' hit' samples' (Fin.FS Fin.F1)
           eq_refl eq_refl eq_refl).
Defined.

(** ** The length of the incoming direction does not matter *)








(** ** The constructor of Metal *)

(** X20: clamping is idempotent and monotone: constructing a [Metal] from
    a stored fuzz stores the same fuzz, and a larger argument never gives a
    smaller stored fuzz. *)
Theorem metal_init_idempotent_monotone :
  forall (albedo : vec3) (fuzz fuzz' : R),
    Metal.init albedo (Metal.fuzz (Metal.init albedo fuzz)) = Metal.init albedo fuzz
    /\ (fuzz <= fuzz' ->
        Metal.fuzz (Metal.init albedo fuzz) <= Metal.fuzz (Metal.init albedo fuzz')).
Proof.
  intros albedo f g. split.
  - unfold Metal.init. simpl. f_equal.
    rewrite !py_min_spec, !py_max_spec. unfold Rmax, Rmin.
    repeat (destruct (Rle_dec _ _); try lra).
  - intro Hle. rewrite !fuzz_init. unfold Rmax, Rmin.
    repeat (destruct (Rle_dec _ _); try lra).
Qed.

Lemma metal_init_idempotent_monotone_witness :
  0.3 <= 2.5
  /\ Metal.fuzz (Metal.init vones 0.3) <= Metal.fuzz (Metal.init vones 2.5).
Proof.
  assert (H : 0.3 <= 2.5) by lra.
  split; [exact H|].
  exact (proj2 (metal_init_idempotent_monotone vones 0.3 2.5) H).
Defined.

(** ** Dielectric: special incidences *)

Lemma sin_of_cos_le_1 (c : R) : sin_of_cos c <= 1.
Proof.
  unfold sin_of_cos. rewrite <- sqrt_1 at 2.
  apply sqrt_le_1_alt. pose proof (pow2_ge_0 c). lra.
Qed.

(** X21: total internal reflection needs a ratio above 1.  With an index
    of at least 1, an element hit on its front face (ratio [1 / index]) is
    never marked [cannot_refract], at any incidence. *)
Theorem dielectric_front_face_can_refract :
  forall (self : Dielectric.t) (N : nat) (r_in : rays N) (hit_record : HitRecord N)
         (refraction_ratio : column N) (i : Fin.t N),
    Dielectric.refraction_ratio self (front_face hit_record) = Some refraction_ratio ->
    1 <= Dielectric.refraction_index self ->
    row (front_face hit_record) i = true ->
    row (Dielectric.cannot_refract refraction_ratio
           (Dielectric.sin_theta
              (Dielectric.cos_theta (Dielectric.unit_direction r_in)
                 (normal hit_record)))) i = false.
Proof.
  intros self N r_in hit ratio i Hr Hidx Hff.
  rewrite row_cannot_refract, row_sin_theta, (row_refraction_ratio self _ ratio i Hr), Hff.
  apply Rgtb_false.
  set (s := sin_of_cos _).
  assert (Hs : 0 <= s <= 1) by (split; [apply sqrt_pos | apply sin_of_cos_le_1]).
  assert (Hq : 0 < 1 / Dielectric.refraction_index self <= 1).
  { assert (Hpos : 0 < 1 / Dielectric.refraction_index self)
      by (apply Rdiv_lt_0_compat; lra).
    assert (Hinv : 1 / Dielectric.refraction_index self
                   * Dielectric.refraction_index self = 1) by (field; lra).
    split; [exact Hpos | nra]. }
  nra.
Qed.

Lemma dielectric_front_face_can_refract_witness :
  let self := Dielectric.mk 1.5 in
  let r_in := single (vzero, mkV 1 0 0) in
  let hit := mkHit (single vzero) (single (mkV 0 1 0)) (single true) in
  1 <= Dielectric.refraction_index self
  /\ exists refraction_ratio,
       Dielectric.refraction_ratio self (front_face hit) = Some refraction_ratio
       /\ row (Dielectric.cannot_refract refraction_ratio
                 (Dielectric.sin_theta
                    (Dielectric.cos_theta (Dielectric.unit_direction r_in) (normal hit))))
            Fin.F1 = false.
Proof.
  intros self r_in hit.
  assert (H1 : 1 <= Dielectric.refraction_index self) by (simpl; lra).
  assert (Hnz : Dielectric.refraction_index self <> 0) by (simpl; lra).
  split; [exact H1|].
  eexists. split.
  - exact (refraction_ratio_some self (front_face hit) Hnz).
  - exact (dielectric_front_face_can_refract self 1 r_in hit _ Fin.F1
             (refraction_ratio_some self (front_face hit) Hnz) H1 eq_refl).
Defined.

Lemma reflect_row_head_on (n : vec3) :
  dot n n = 1 -> reflect_row (vneg n) n = n.
Proof.
  intro Hn. unfold reflect_row. rewrite vsum_vmul, dot_vneg_l, Hn.
  unfold vsub, vscale, vneg. apply vec3_eq; simpl; ring.
Qed.

Lemma refract_row_head_on (n : vec3) (eta : R) :
  dot n n = 1 -> refract_row (vneg n) n eta = vneg n.
Proof.
  intro Hn. apply refract_row_no_perp.
  rewrite !dot_vneg_l, Hn, Rmin_left by lra.
  unfold vadd, vscale, vneg, vzero. apply vec3_eq; simpl; ring.
Qed.

(** X22: a ray meeting a dielectric head-on (its normalised direction is
    the reversed unit normal) either goes straight on or comes straight
    back: the new direction is [-n] or [n]. *)
Theorem dielectric_head_on :
  forall (self : Dielectric.t) (N : nat) (r_in : rays N) (hit_record : HitRecord N)
         (random_numbers : column N) (i : Fin.t N),
    Dielectric.refraction_index self <> 0 ->
    norm (row (normal hit_record) i) = 1 ->
    F_normalize_row (snd (row r_in i)) = vneg (row (normal hit_record) i) ->
    exists result,
      Dielectric.scatter self r_in hit_record random_numbers = Some result
      /\ (snd (row (new_rays result) i) = vneg (row (normal hit_record) i)
          \/ snd (row (new_rays result) i) = row (normal hit_record) i).
Proof.
  intros self N r_in hit rnd i Hnz Hn Hu. apply unit_dot in Hn.
  pose proof (scatter_some self r_in hit rnd _
                (refraction_ratio_some self (front_face hit) Hnz)) as Hs.
  eexists. split; [exact Hs|].
  rewrite (row_dielectric_ray _ _ _ _ _ _ i Hs). simpl. rewrite Hu.
  destruct (orb _ _).
  - right. now apply reflect_row_head_on.
  - left. now apply refract_row_head_on.
Qed.

Lemma dielectric_head_on_witness :
  let self := Dielectric.mk 1.5 in
  let r_in := single (vzero, mkV 0 (-1) 0) in
  let hit := mkHit (single vzero) (single (mkV 0 1 0)) (single true) in
  Dielectric.refraction_index self <> 0
  /\ norm (row (normal hit) Fin.F1) = 1
  /\ exists result,
       Dielectric.scatter self r_in hit (single 0.5) = Some result
       /\ (snd (row (new_rays result) Fin.F1) = vneg (row (normal hit) Fin.F1)
           \/ snd (row (new_rays result) Fin.F1) = row (normal hit) Fin.F1).
Proof.
  intros self r_in hit.
  assert (H0 : Dielectric.refraction_index self <> 0) by (simpl; lra).
  assert (H1 : norm (row (normal hit) Fin.F1) = 1) by exact norm_e2.
  split; [exact H0|]. split; [exact H1|].
  apply (dielectric_head_on self 1 r_in hit (single 0.5) Fin.F1 H0 H1).
  change (snd (row r_in Fin.F1)) with (mkV 0 (-1) 0).
  change (row (normal hit) Fin.F1) with (mkV 0 1 0).
  rewrite (F_normalize_row_of_unit _ norm_neg_e2).
  unfold vneg. apply vec3_eq; simpl; ring.
Defined.



(** ** [reflect] about a normal of any length *)

(** X24: [reflect] does not normalise [n].  For a normal of any length the
    component along [n] is multiplied by [1 - 2*|n|^2] (reversed only when
    [|n| = 1]), and a vector orthogonal to [n] is returned unchanged. *)
Theorem reflect_any_normal :
  forall (N : nat) (v n : tensor N) (i : Fin.t N),
    dot (row (reflect v n) i) (row n i)
    = (1 - 2 * dot (row n i) (row n i)) * dot (row v i) (row n i)
    /\ (dot (row v i) (row n i) = 0 -> row (reflect v n) i = row v i).
Proof.
  intros N v n i. rewrite row_reflect. split.
  - unfold reflect_row. rewrite vsum_vmul, dot_vsub_l, dot_vscale_l. ring.
  - intro Ho. unfold reflect_row. rewrite vsum_vmul, Ho.
    unfold vsub, vscale. apply vec3_eq; simpl; ring.
Qed.

Lemma reflect_any_normal_witness :
  dot (row (single (mkV 1 0 0)) Fin.F1) (row (single (mkV 0 3 0)) Fin.F1) = 0
  /\ row (reflect (single (mkV 1 0 0)) (single (mkV 0 3 0))) Fin.F1
     = row (single (mkV 1 0 0)) Fin.F1.
Proof.
  assert (H : dot (row (single (mkV 1 0 0)) Fin.F1) (row (single (mkV 0 3 0)) Fin.F1) = 0)
    by (rewrite !row_single; unfold dot; simpl; ring).
  split; [exact H|].
  exact (proj2 (reflect_any_normal 1 (single (mkV 1 0 0)) (single (mkV 0 3 0)) Fin.F1) H).
Defined.

Lemma dielectric_raises_iff_zero_index_witness :
  Dielectric.refraction_index (Dielectric.mk 0) = 0
  /\ Dielectric.scatter (Dielectric.mk 0) (single (vzero, mkV 0 (-1) 0))
       (mkHit (single vzero) (single (mkV 0 1 0)) (single true)) (single 0.5)
     = None.
Proof.
  assert (H : Dielectric.refraction_index (Dielectric.mk 0) = 0) by reflexivity.
  split; [exact H|].
  exact (proj2 (dielectric_raises_iff_zero_index (Dielectric.mk 0) 1
                  (single (vzero, mkV 0 (-1) 0))
                  (mkHit (single vzero) (single (mkV 0 1 0)) (single true))
                  (single 0.5)) H).
Defined.
